(** * node_acl: the permission engine (lib/acl.js) over its storage backends

    A shallow embedding of [lib/acl.js], of the in-memory backend
    ([lib/memory-backend.js]) and of the write side of the MongoDB backend
    ([lib/mongodb-backend.js]), with the properties of the specification
    stated over them.

    Conventions of the embedding.
    - A JavaScript array of strings is a [list string]; array order and
      duplicates are kept.
    - A plain JavaScript object used as a dictionary is an association list
      in property insertion order ([obj]).  Property names are taken to be
      own properties that are not canonical array indices (the bucket names
      of the engine are alphabetic), so enumeration order is insertion order.
    - An argument documented as [String|Array] is a [values].
    - An [async] recursion is a function with a fuel argument that bounds
      the number of recursive calls; [None] means that the fuel ran out. *)

From Stdlib Require Import List String Ascii Bool Arith Lia.
Import ListNotations.
Local Open Scope string_scope.
Local Open Scope list_scope.

Set Implicit Arguments.

(* ------------------------------------------------------------------ *)
(** ** JavaScript values used by the engine *)

(** [String|Array] arguments. *)
Inductive values : Type :=
| Str (s : string)
| Arr (l : list string).

(** [makeArray(arr)]: [Array.isArray(arr) ? arr : [arr]]. *)
Definition makeArray (arr : values) : list string :=
  match arr with
  | Arr l => l
  | Str s => [s]
  end.

(** Truthiness of an optional [String|Array] argument: [undefined] and the
    empty string are falsy, every array is truthy. *)
Definition truthy (v : option values) : bool :=
  match v with
  | None => false
  | Some (Str s) => negb (s =? "")
  | Some (Arr _) => true
  end.

(** [arr.indexOf(x) !== -1]. *)
Fixpoint includes (x : string) (arr : list string) : bool :=
  match arr with
  | [] => false
  | y :: ys => (y =? x) || includes x ys
  end.

(* ------------------------------------------------------------------ *)
(** ** The lodash functions the sources call *)

Module Lodash.

(** [_.uniq(array)]: first occurrences, in order. *)
Fixpoint uniq_acc (seen arr : list string) : list string :=
  match arr with
  | [] => []
  | x :: xs =>
      if includes x seen then uniq_acc seen xs
      else x :: uniq_acc (x :: seen) xs
  end.

Definition uniq (arr : list string) : list string := uniq_acc [] arr.

(** [_.union(a, b)]: unique values of both arrays, in order. *)
Definition union (a b : list string) : list string := uniq (a ++ b).

(** [_.union(a)] with a single array. *)
Definition union1 (a : list string) : list string := uniq a.

(** [_.difference(array, values)]. *)
Definition difference (arr vals : list string) : list string :=
  filter (fun x => negb (includes x vals)) arr.

(** [_.intersection(a, b)]: the unique values of [a] that [b] includes. *)
Definition intersection (a b : list string) : list string :=
  uniq (filter (fun x => includes x b) a).

(** [_.flatten(arrays)], one level. *)
Definition flatten (arrs : list (list string)) : list string := List.concat arrs.

End Lodash.

(* ------------------------------------------------------------------ *)
(** ** Regular expressions

    The memory backend builds [new RegExp("^" + b + "$")] from bucket names.
    The engine is a parameter of the model ([test b s] stands for
    [new RegExp("^" + b + "$").test(s)], for sources that compile); for
    concrete stores the fragment below is enough: sources made of ordinary
    characters and [.]. *)

Module RegExp.

(** [.] matches any character but a line terminator. *)
Definition dot_matches (c : ascii) : bool :=
  negb ((c =? "010")%char || (c =? "013")%char).

(** [new RegExp("^" + source + "$").test(s)] for a [source] whose only
    special character is [.]. *)
Fixpoint test (source s : string) : bool :=
  match source, s with
  | EmptyString, EmptyString => true
  | String p source', String c s' =>
      (if (p =? ".")%char then dot_matches c else (p =? c)%char) && test source' s'
  | _, _ => false
  end.

End RegExp.

(* ------------------------------------------------------------------ *)
(** ** Plain objects as ordered dictionaries *)

Definition obj (A : Type) : Type := list (string * A).

Section Obj.
Variable A : Type.

(** [o[k]]; [None] is [undefined]. *)
Fixpoint prop (k : string) (o : obj A) : option A :=
  match o with
  | [] => None
  | (k', v) :: rest => if k' =? k then Some v else prop k rest
  end.

(** [o[k] = v]: overwrite in place, or append a new property. *)
Fixpoint assign (k : string) (v : A) (o : obj A) : obj A :=
  match o with
  | [] => [(k, v)]
  | (k', v') :: rest =>
      if k' =? k then (k', v) :: rest else (k', v') :: assign k v rest
  end.

(** [delete o[k]]. *)
Definition delete (k : string) (o : obj A) : obj A :=
  filter (fun kv => negb (fst kv =? k)) o.

(** [Object.keys(o)]. *)
Definition keys (o : obj A) : list string := map fst o.

End Obj.

(* ------------------------------------------------------------------ *)
(** ** The backend interface (lib/backend.js) *)

(** A call either returns or throws [new Error(msg)]. *)
Inductive result (A : Type) : Type :=
| Ok (a : A)
| Throw (msg : string).
Arguments Throw {A} msg.

Definition bind {A B : Type} (r : result A) (k : A -> result B) : result B :=
  match r with
  | Ok a => k a
  | Throw m => Throw m
  end.

Notation "x <- r ;; k" := (bind r (fun x => k))
  (at level 61, r at next level, right associativity).

(** The mutating half of the interface: a transaction is opened with
    [begin], operations are queued on it and [end] executes them. *)
Class BackendWrite (S : Type) : Type := {
  txn : Type;
  begin : txn;
  add : txn -> string -> string -> values -> result txn;
  del : txn -> string -> values -> result txn;
  remove : txn -> string -> string -> values -> result txn;
  end_ : txn -> S -> S
}.

(** The querying half; [unions] is the optional capability. *)
Class BackendRead (S : Type) : Type := {
  get : S -> string -> string -> list string;
  union : S -> string -> list string -> list string;
  unions : option (S -> list string -> list string -> obj (list string))
}.

(* ------------------------------------------------------------------ *)
(** ** The in-memory backend (lib/memory-backend.js) *)

Module Memory.

(** [this._buckets]: bucket name -> key -> array of values. *)
Definition store : Type := obj (obj (list string)).

(** [clean()] leaves [this._buckets = {}]. *)
Definition clean : store := [].

(** The closures pushed on a transaction, one constructor per method. *)
Inductive op : Type :=
| OpAdd (bucket key : string) (vals : list string)
| OpDel (bucket : string) (ks : list string)
| OpRemove (bucket key : string) (vals : list string).

(** The body of the closure queued by [add]. *)
Definition run_add (bucket key : string) (vals : list string) (st : store) : store :=
  let st1 := match prop bucket st with
             | None => assign bucket [] st
             | Some _ => st
             end in
  let b := match prop bucket st1 with Some b => b | None => [] end in
  match prop key b with
  | None => assign bucket (assign key vals b) st1
  | Some old => assign bucket (assign key (Lodash.union vals old) b) st1
  end.

(** The body of the closure queued by [del]. *)
Definition run_del (bucket : string) (ks : list string) (st : store) : store :=
  match prop bucket st with
  | Some b => assign bucket (fold_left (fun b k => delete k b) ks b) st
  | None => st
  end.

(** The body of the closure queued by [remove]. *)
Definition run_remove (bucket key : string) (vals : list string) (st : store) : store :=
  match prop bucket st with
  | Some b =>
      match prop key b with
      | Some old => assign bucket (assign key (Lodash.difference old vals) b) st
      | None => st
      end
  | None => st
  end.

Definition run (o : op) (st : store) : store :=
  match o with
  | OpAdd bucket key vals => run_add bucket key vals st
  | OpDel bucket ks => run_del bucket ks st
  | OpRemove bucket key vals => run_remove bucket key vals st
  end.

(** What one queued closure adds to the array at [(bucket, key)], and what
    it takes away from it. *)
Definition puts (o : op) (bucket key x : string) : Prop :=
  match o with
  | OpAdd b k vals => b = bucket /\ k = key /\ In x vals
  | OpDel _ _ | OpRemove _ _ _ => False
  end.

Definition kills (o : op) (bucket key x : string) : Prop :=
  match o with
  | OpAdd _ _ _ => False
  | OpDel b ks => b = bucket /\ In key ks
  | OpRemove b k vals => b = bucket /\ k = key /\ In x vals
  end.

Definition is_add (o : op) : bool :=
  match o with OpAdd _ _ _ => true | _ => false end.

Definition is_removal (o : op) : bool :=
  match o with OpAdd _ _ _ => false | _ => true end.

(** An [add] closure that carries no value twice; the other closures carry
    nothing to store. *)
Definition adds_distinct (o : op) : Prop :=
  match o with
  | OpAdd _ _ vals => NoDup vals
  | OpDel _ _ | OpRemove _ _ _ => True
  end.

(** The bucket a queued closure writes to. *)
Definition op_bucket (o : op) : string :=
  match o with
  | OpAdd b _ _ | OpDel b _ | OpRemove b _ _ => b
  end.

(** [end(transaction)]: the queued closures run in order. *)
Definition commit (t : list op) (st : store) : store :=
  fold_left (fun st o => run o st) t st.

(** [get(bucket, key)]. *)
Definition mget (st : store) (bucket key : string) : list string :=
  match prop bucket st with
  | Some b => match prop key b with Some v => v | None => [] end
  | None => []
  end.

(** [this._buckets[bucket][key]] when the bucket exists; [None] is
    [undefined]. *)
Definition lookup (st : store) (bucket key : string) : option (list string) :=
  match prop bucket st with
  | Some b => prop key b
  | None => None
  end.

(** [_.values(_.pick(object, keys))]: the values of the picked keys, each
    key once, in the order of [keys].  Keys are plain property names. *)
Fixpoint pick_values (seen : list string) (b : obj (list string))
         (ks : list string) : list (list string) :=
  match ks with
  | [] => []
  | k :: rest =>
      if includes k seen then pick_values seen b rest
      else match prop k b with
           | Some v => v :: pick_values (k :: seen) b rest
           | None => pick_values seen b rest
           end
  end.

(** [unions(buckets, keys)]. *)
Definition munions (st : store) (buckets ks : list string) : obj (list string) :=
  fold_left
    (fun results bucket =>
       match prop bucket st with
       | Some b =>
           assign bucket (Lodash.uniq (Lodash.flatten (pick_values [] b ks))) results
       | None => assign bucket [] results
       end)
    buckets [].

(** What [unions] stores for one bucket. *)
Definition unions_value (st : store) (ks : list string) (bucket : string)
  : list string :=
  match prop bucket st with
  | Some b => Lodash.uniq (Lodash.flatten (pick_values [] b ks))
  | None => []
  end.

(** The bucket that [union] reads: the requested one when it exists,
    otherwise the first existing bucket whose name, taken as the regular
    expression [^name$], matches the requested name. *)
Definition resolve (test : string -> string -> bool) (st : store)
           (bucket : string) : string :=
  match prop bucket st with
  | Some _ => bucket
  | None =>
      match find (fun b => test b bucket) (keys st) with
      | Some b => b
      | None => bucket
      end
  end.

(** The [for] loop of [union]: the arrays of the keys that exist. *)
Fixpoint keyArrays (b : obj (list string)) (ks : list string) : list string :=
  match ks with
  | [] => []
  | k :: rest =>
      match prop k b with
      | Some v => v ++ keyArrays b rest
      | None => keyArrays b rest
      end
  end.

(** [union(bucket, keys)]; [test b s] is [new RegExp("^" + b + "$").test(s)]. *)
Definition munion (test : string -> string -> bool) (st : store)
           (bucket : string) (ks : list string) : list string :=
  match prop (resolve test st bucket) st with
  | Some b => Lodash.union1 (keyArrays b ks)
  | None => []
  end.

(** [add], [del] and [remove] normalise their argument and queue a closure. *)
Definition madd (t : list op) (bucket key : string) (vals : values) : result (list op) :=
  Ok (t ++ [OpAdd bucket key (makeArray vals)]).

Definition mdel (t : list op) (bucket : string) (ks : values) : result (list op) :=
  Ok (t ++ [OpDel bucket (makeArray ks)]).

Definition mremove (t : list op) (bucket key : string) (vals : values) : result (list op) :=
  Ok (t ++ [OpRemove bucket key (makeArray vals)]).

#[global] Instance write : BackendWrite store := {
  txn := list op;
  begin := [];
  add := madd;
  del := mdel;
  remove := mremove;
  end_ := commit
}.

Definition read (test : string -> string -> bool) : BackendRead store := {|
  get := mget;
  union := munion test;
  unions := Some munions
|}.

(** The same backend without the optional [unions] method. *)
Definition read_basic (test : string -> string -> bool) : BackendRead store := {|
  get := mget;
  union := munion test;
  unions := None
|}.

End Memory.

(* ------------------------------------------------------------------ *)
(** ** The MongoDB backend, mutating half (lib/mongodb-backend.js)

    The driver and the URI-encoding builtins are parameters: [exec] is the
    effect of one queued driver call on the database. *)

Module MongoDB.

(** The driver calls queued on a transaction.  [bucketname] is the
    [_bucketname] field of the search parameters, present with [useSingle]. *)
Inductive op : Type :=
| UpdateSet (collection : string) (bucketname : option string) (key : string)
            (doc : list string)
| CreateIndex (collection : string) (withBucketname : bool)
| DeleteMany (collection : string) (bucketname : option string) (ks : list string)
| UpdateUnset (collection : string) (bucketname : option string) (key : string)
              (doc : list string).

(** [aclCollectionName]. *)
Definition aclCollectionName : string := "resources".

(** [text.replace(re, by)] for a one-character class [re] with flag [g]. *)
Fixpoint replace_chars (hit : ascii -> bool) (by_ : string) (text : string) : string :=
  match text with
  | EmptyString => EmptyString
  | String c rest =>
      if hit c then by_ ++ replace_chars hit by_ rest
      else String c (replace_chars hit by_ rest)
  end.

Section Backend.
Variable db : Type.
Variable exec : op -> db -> db.
Variables encodeURIComponent decodeURIComponent : string -> string.
Variable prefix : string.
Variables useSingle useRawCollectionNames : bool.

(** [encodeText(text)]. *)
Definition encodeText (text : string) : string :=
  replace_chars (fun c => (c =? ".")%char) "%2E" (encodeURIComponent text).

(** [encodeAll(arr)] on an array. *)
Definition encodeAll (arr : list string) : list string := map encodeText arr.

(** The backend's own [makeArray(arr)]. *)
Definition makeArray (arr : values) : list string :=
  match arr with
  | Arr l => encodeAll l
  | Str s => [encodeText s]
  end.

(** [removeUnsupportedChar(text)]: slashes and white space become [_]. *)
Definition removeUnsupportedChar (text : string) : string :=
  if negb useRawCollectionNames then
    replace_chars
      (fun c => (c =? "/")%char || (c =? " ")%char || (c =? "009")%char
                || (c =? "010")%char || (c =? "011")%char || (c =? "012")%char
                || (c =? "013")%char)
      "_" (decodeURIComponent text)
  else text.

(** [this.prefix + this.removeUnsupportedChar(collName)]. *)
Definition collection (bucket : string) : string :=
  prefix ++ removeUnsupportedChar (if useSingle then aclCollectionName else bucket).

Definition bucketname (bucket : string) : option string :=
  if useSingle then Some bucket else None.

(** [add(transaction, bucket, key, values)]. *)
Definition add (t : list op) (bucket key : string) (vals : values) : result (list op) :=
  if key =? "key" then Throw "Key name 'key' is not allowed."
  else
    let key := encodeText key in
    Ok (t ++ [UpdateSet (collection bucket) (bucketname bucket) key (makeArray vals);
              CreateIndex (collection bucket) useSingle]).

(** [del(transaction, bucket, keys)]. *)
Definition del (t : list op) (bucket : string) (ks : values) : result (list op) :=
  Ok (t ++ [DeleteMany (collection bucket) (bucketname bucket) (makeArray ks)]).

(** [remove(transaction, bucket, key, values)]. *)
Definition remove (t : list op) (bucket key : string) (vals : values) : result (list op) :=
  let key := encodeText key in
  Ok (t ++ [UpdateUnset (collection bucket) (bucketname bucket) key (makeArray vals)]).

(** [end(transaction)]: every queued call is issued, in queue order. *)
Definition commit (t : list op) (d : db) : db :=
  fold_left (fun d o => exec o d) t d.

Definition write : BackendWrite db :=
  Build_BackendWrite (txn := list op) [] add del remove commit.

End Backend.

End MongoDB.

(* ------------------------------------------------------------------ *)
(** ** The Redis backend, mutating half (lib/redis-backend.js)

    The client is a parameter: [exec] is the effect of
    [transaction.exec()] on the database for the commands queued on the
    [multi]. *)

Module Redis.

(** The commands queued on a transaction. *)
Inductive cmd : Type :=
| SAdd (key value : string)
| Del (ks : list string)
| SRem (key value : string).

Section Backend.
Variable db : Type.
Variable exec : list cmd -> db -> db.
Variable prefix : option string.

(** [this.prefix = prefix || "acl_"]. *)
Definition this_prefix : string :=
  match prefix with
  | Some p => if p =? "" then "acl_" else p
  | None => "acl_"
  end.

(** [bucketKey(bucket, keys)] on one key. *)
Definition bucketKey (bucket key : string) : string :=
  this_prefix ++ "_" ++ bucket ++ "@" ++ key.

(** [bucketKey(bucket, keys)] on an array of keys. *)
Definition bucketKeys (bucket : string) (ks : list string) : list string :=
  map (fun key => (this_prefix ++ "_" ++ bucket ++ "@" ++ key)%string) ks.

(** [add(transaction, bucket, key, values)]. *)
Definition add (t : list cmd) (bucket key : string) (vals : values)
  : result (list cmd) :=
  let key := bucketKey bucket key in
  match vals with
  | Arr l => Ok (t ++ map (fun value => SAdd key value) l)
  | Str value => Ok (t ++ [SAdd key value])
  end.

(** [del(transaction, bucket, keys)]. *)
Definition del (t : list cmd) (bucket : string) (ks : values) : result (list cmd) :=
  let ks := match ks with Arr l => l | Str k => [k] end in
  let ks := map (fun key => bucketKey bucket key) ks in
  Ok (t ++ [Del ks]).

(** [remove(transaction, bucket, key, values)]. *)
Definition remove (t : list cmd) (bucket key : string) (vals : values)
  : result (list cmd) :=
  let key := bucketKey bucket key in
  match vals with
  | Arr l => Ok (t ++ map (fun value => SRem key value) l)
  | Str value => Ok (t ++ [SRem key value])
  end.

Definition write : BackendWrite db :=
  Build_BackendWrite (txn := list cmd) [] add del remove exec.

End Backend.

End Redis.

(* ------------------------------------------------------------------ *)
(** ** The engine (lib/acl.js) *)

Module Acl.

(** [options.buckets], the default names. *)
Module buckets.
Definition meta : string := "meta".
Definition parents : string := "parents".
Definition permissions : string := "permissions".
Definition resources : string := "resources".
Definition roles : string := "roles".
Definition users : string := "users".
End buckets.

(** [allowsBucket(role)]: ["allows_" + role]. *)
Definition allowsBucket (role : string) : string := "allows_" ++ role.

(** [keyFromAllowsBucket(str)]: [str.replace(/^allows_/, "")]. *)
Definition keyFromAllowsBucket (str : string) : string :=
  if prefix "allows_" str then substring 7 (String.length str - 7) str else str.

(** What a mutating call leaves behind: how its promise settles, and the
    backend's state at that moment. *)
Record reply (S : Type) : Type := Reply {
  outcome : result unit;
  store_after : S
}.

(** [for (const x of xs) await step(transaction, x)]. *)
Definition for_each {T : Type} (xs : list string) (step : T -> string -> result T)
           (t : T) : result T :=
  fold_left (fun r x => t' <- r ;; step t' x) xs (Ok t).

Section Engine.
Context {S : Type} {W : BackendWrite S}.

(** [return await this.backend.end(transaction)], reached only when every
    queued call returned. *)
Definition finish (t : result txn) (st : S) : reply S :=
  match t with
  | Ok t => Reply (Ok tt) (end_ t st)
  | Throw m => Reply (Throw m) st
  end.

(** [addUserRoles(userId, roles)]. *)
Definition addUserRoles (userId : string) (roles : values) (st : S) : reply S :=
  finish
    (t <- add begin buckets.meta "users" (Str userId) ;;
     t <- add t buckets.users userId roles ;;
     match roles with
     | Arr l => for_each l (fun t role => add t buckets.roles role (Str userId)) t
     | Str role => add t buckets.roles role (Str userId)
     end)
    st.

(** [removeUserRoles(userId, roles)]. *)
Definition removeUserRoles (userId : string) (roles : values) (st : S) : reply S :=
  finish
    (t <- remove begin buckets.users userId roles ;;
     match roles with
     | Arr l => for_each l (fun t role => remove t buckets.roles role (Str userId)) t
     | Str role => remove t buckets.roles role (Str userId)
     end)
    st.

(** [addRoleParents(role, parents)]. *)
Definition addRoleParents (role : string) (parents : values) (st : S) : reply S :=
  finish
    (t <- add begin buckets.meta "roles" (Str role) ;;
     add t buckets.parents role parents)
    st.

(** [removeRoleParents(role, parents)]; [parents] may be left out. *)
Definition removeRoleParents (role : string) (parents : option values) (st : S) : reply S :=
  finish
    (match parents with
     | Some ps =>
         if truthy parents then remove begin buckets.parents role ps
         else del begin buckets.parents (Str role)
     | None => del begin buckets.parents (Str role)
     end)
    st.

(** [allow(roles, resources, permissions)], the three-argument form. *)
Definition allow (roles resources permissions : values) (st : S) : reply S :=
  let roles := makeArray roles in
  let resources := makeArray resources in
  finish
    (t <- add begin buckets.meta "roles" (Arr roles) ;;
     t <- for_each resources
            (fun t resource =>
               for_each roles
                 (fun t role => add t (allowsBucket resource) role permissions) t)
            t ;;
     for_each roles (fun t role => add t buckets.resources role (Arr resources)) t)
    st.

Context {R : BackendRead S}.

(** [userRoles(userId)]. *)
Definition userRoles (st : S) (userId : string) : list string :=
  get st buckets.users userId.

(** [roleUsers(roleName)]. *)
Definition roleUsers (st : S) (roleName : string) : list string :=
  get st buckets.roles roleName.

(** [hasRole(userId, rolename)]. *)
Definition hasRole (st : S) (userId rolename : string) : bool :=
  includes rolename (userRoles st userId).

(** [removeRole(role)]. *)
Definition removeRole (role : string) (st : S) : reply S :=
  let resources := get st buckets.resources role in
  finish
    (t <- for_each resources
            (fun t resource => del t (allowsBucket resource) (Str role)) begin ;;
     t <- del t buckets.resources (Str role) ;;
     t <- del t buckets.parents (Str role) ;;
     t <- del t buckets.roles (Str role) ;;
     remove t buckets.meta "roles" (Str role))
    st.

(** [removeResource(resource)]. *)
Definition removeResource (resource : string) (st : S) : reply S :=
  let roles := get st buckets.meta "roles" in
  finish
    (t <- del begin (allowsBucket resource) (Arr roles) ;;
     for_each roles (fun t role => remove t buckets.resources role (Str resource)) t)
    st.

(** [removePermissions(role, resources, permissions)]: two transactions,
    the second one drops the resources left without permissions. *)
Definition removePermissions (role : string) (resources : list string)
           (permissions : option values) (st : S) : reply S :=
  let first :=
    finish
      (for_each resources
         (fun t resource =>
            let bucket := allowsBucket resource in
            match permissions with
            | Some ps =>
                if truthy permissions then remove t bucket role ps
                else t <- del t bucket (Str role) ;;
                     remove t buckets.resources role (Str resource)
            | None =>
                t <- del t bucket (Str role) ;;
                remove t buckets.resources role (Str resource)
            end)
         begin)
      st in
  match outcome first with
  | Throw m => first
  | Ok _ =>
      let st1 := store_after first in
      finish
        (for_each resources
           (fun t resource =>
              let permissions1 := get st1 (allowsBucket resource) role in
              match permissions1 with
              | [] => remove t buckets.resources role (Str resource)
              | _ :: _ => Ok t
              end)
           begin)
        st1
  end.

(** [removeAllow(role, resources, permissions)]. *)
Definition removeAllow (role : string) (resources : values)
           (permissions : option values) (st : S) : reply S :=
  let resources := makeArray resources in
  let permissions :=
    match permissions with
    | Some ps => if truthy permissions then Some (Arr (makeArray ps)) else permissions
    | None => None
    end in
  removePermissions role resources permissions st.

(** [_rolesParents(roles)]. *)
Definition _rolesParents (st : S) (roles : list string) : list string :=
  union st buckets.parents roles.

(** [_allRoles(roleNames)]. *)
Fixpoint _allRoles (fuel : nat) (st : S) (roleNames : list string)
  : option (list string) :=
  match _rolesParents st roleNames with
  | [] => Some roleNames
  | (_ :: _) as parents =>
      match fuel with
      | O => None
      | Datatypes.S fuel' =>
          match _allRoles fuel' st parents with
          | Some parentRoles => Some (Lodash.union roleNames parentRoles)
          | None => None
          end
      end
  end.

(** [_allUserRoles(userId)]. *)
Definition _allUserRoles (fuel : nat) (st : S) (userId : string)
  : option (list string) :=
  match userRoles st userId with
  | [] => Some []
  | (_ :: _) as roles => _allRoles fuel st roles
  end.

(** [_resourcePermissions(roles, resource)]. *)
Fixpoint _resourcePermissions (fuel : nat) (st : S) (roles : list string)
         (resource : string) : option (list string) :=
  match roles with
  | [] => Some []
  | _ :: _ =>
      let resourcePermissions := union st (allowsBucket resource) roles in
      match _rolesParents st roles with
      | [] => Some resourcePermissions
      | (_ :: _) as parents =>
          match fuel with
          | O => None
          | Datatypes.S fuel' =>
              match _resourcePermissions fuel' st parents resource with
              | Some morePermissions =>
                  Some (Lodash.union resourcePermissions morePermissions)
              | None => None
              end
          end
      end
  end.

(** [_checkPermissions(roles, resource, permissions)]. *)
Fixpoint _checkPermissions (fuel : nat) (st : S) (roles : list string)
         (resource : string) (permissions : list string) : option bool :=
  let resourcePermissions := union st (allowsBucket resource) roles in
  if includes "*" resourcePermissions then Some true
  else
    match filter (fun p => negb (includes p resourcePermissions)) permissions with
    | [] => Some true
    | (_ :: _) as permissions' =>
        match union st buckets.parents roles with
        | [] => Some false
        | (_ :: _) as parents =>
            match fuel with
            | O => None
            | Datatypes.S fuel' =>
                _checkPermissions fuel' st parents resource permissions'
            end
        end
    end.

(** [areAnyRolesAllowed(roles, resource, permissions)]. *)
Definition areAnyRolesAllowed (fuel : nat) (st : S) (roles : values)
           (resource : string) (permissions : values) : option bool :=
  let roles := makeArray roles in
  let permissions := makeArray permissions in
  match roles with
  | [] => Some false
  | _ :: _ => _checkPermissions fuel st roles resource permissions
  end.

(** [isAllowed(userId, resource, permissions)]. *)
Definition isAllowed (fuel : nat) (st : S) (userId resource : string)
           (permissions : values) : option bool :=
  match get st buckets.users userId with
  | [] => Some false
  | (_ :: _) as roles => areAnyRolesAllowed fuel st (Arr roles) resource permissions
  end.

(** [optimizedAllowedPermissions(userId, resources)], given the backend's
    [unions]. *)
Definition optimizedAllowedPermissions
           (unions : S -> list string -> list string -> obj (list string))
           (fuel : nat) (st : S) (userId : string) (resources : values)
  : option (obj (list string)) :=
  if userId =? "" then Some []
  else
    let resources := makeArray resources in
    match _allUserRoles fuel st userId with
    | None => None
    | Some roles =>
        let buckets := map allowsBucket resources in
        let response :=
          match roles with
          | [] => fold_left (fun emptyResult bucket => assign bucket [] emptyResult)
                            buckets []
          | _ :: _ => unions st buckets roles
          end in
        Some (fold_left
                (fun result bucket =>
                   match prop bucket response with
                   | Some v => assign (keyFromAllowsBucket bucket) v result
                   | None => result
                   end)
                (keys response) [])
    end.

(** The body of [allowedPermissions] below the [unions] test: one
    [_resourcePermissions] per resource. *)
Definition allowedPermissions_each (fuel : nat) (st : S) (userId : string)
           (resources : values) : option (obj (list string)) :=
  let resources := makeArray resources in
  let roles := userRoles st userId in
  fold_left
    (fun result resource =>
       match result, _resourcePermissions fuel st roles resource with
       | Some result, Some ps => Some (assign resource ps result)
       | _, _ => None
       end)
    resources (Some []).

(** [allowedPermissions(userId, resources)]. *)
Definition allowedPermissions (fuel : nat) (st : S) (userId : string)
           (resources : values) : option (obj (list string)) :=
  if userId =? "" then Some []
  else
    match unions with
    | Some unions => optimizedAllowedPermissions unions fuel st userId resources
    | None => allowedPermissions_each fuel st userId resources
    end.

(** [_rolesResources(roles)]: the resource lists of every role of the
    hierarchy, concatenated. *)
Definition _rolesResources (fuel : nat) (st : S) (roles : values)
  : option (list string) :=
  let roles := makeArray roles in
  match _allRoles fuel st roles with
  | None => None
  | Some allRoles =>
      Some (fold_left (fun result role => result ++ get st buckets.resources role)
                      allRoles [])
  end.

(** What [permittedResources] resolves with: an object from resource to
    permissions, or an array of resources. *)
Inductive permitted : Type :=
| ByResource (result : obj (list string))
| Resources (result : list string).

(** [permittedResources(roles, permissions)]; [permissions] is an array or
    [undefined]. *)
Definition permittedResources (fuel : nat) (st : S) (roles : list string)
           (permissions : option (list string)) : option permitted :=
  match _rolesResources fuel st (Arr roles) with
  | None => None
  | Some resources =>
      match permissions with
      | Some permissions =>
          option_map Resources
            (fold_left
               (fun result resource =>
                  match result, _resourcePermissions fuel st roles resource with
                  | Some result, Some p =>
                      match Lodash.intersection permissions p with
                      | [] => Some result
                      | _ :: _ => Some (result ++ [resource])
                      end
                  | _, _ => None
                  end)
               resources (Some []))
      | None =>
          option_map ByResource
            (fold_left
               (fun result resource =>
                  match result, _resourcePermissions fuel st roles resource with
                  | Some result, Some p => Some (assign resource p result)
                  | _, _ => None
                  end)
               resources (Some []))
      end
  end.

(** [whatResources(roles, permissions)]. *)
Definition whatResources (fuel : nat) (st : S) (roles : values)
           (permissions : option values) : option permitted :=
  let roles := makeArray roles in
  let permissions :=
    match permissions with
    | Some ps => if truthy permissions then Some (makeArray ps) else None
    | None => None
    end in
  permittedResources fuel st roles permissions.

End Engine.

End Acl.

(* ------------------------------------------------------------------ *)
(** ** Hierarchy and specification-level notions

    Stated for the memory backend; [test] is the regular-expression engine. *)

Module Hierarchy.

Section Defs.
Variable test : string -> string -> bool.
Variable st : Memory.store.

(** The parents query of one role, as the engine issues it. *)
Definition parentsOf (role : string) : list string :=
  @Acl._rolesParents _ (Memory.read test) st [role].

(** [parent child p]: there is a parent edge from [child] to [p]. *)
Definition parent (child p : string) : Prop := In p (parentsOf child).

(** [ancestor r a]: [a] is [r] or is reached from [r] along parent edges. *)
Inductive ancestor : string -> string -> Prop :=
| ancestor_self (r : string) : ancestor r r
| ancestor_step (r p a : string) : parent r p -> ancestor p a -> ancestor r a.

(** [above r a]: [a] is reached from [r] along at least one parent edge. *)
Inductive above : string -> string -> Prop :=
| above_parent (r p : string) : parent r p -> above r p
| above_step (r p a : string) : parent r p -> above p a -> above r a.

(** No role is its own ancestor. *)
Definition acyclic : Prop := forall r, ~ above r r.

(** The role set the recursion of [_allRoles] holds after [n] calls. *)
Fixpoint level (n : nat) (roles : list string) : list string :=
  match n with
  | O => roles
  | Datatypes.S n' => level n' (@Acl._rolesParents _ (Memory.read test) st roles)
  end.

(** [path r l x]: parent edges lead from [r] to [x]; [l] lists the roles
    left on the way, [r] first. *)
Inductive path : string -> list string -> string -> Prop :=
| path_nil (r : string) : path r [] r
| path_cons (r p : string) (l : list string) (x : string) :
    parent r p -> path p l x -> path r (r :: l) x.

(** The keys of the bucket the parents query reads: every role with a
    parent is among them. *)
Definition dom : list string :=
  match prop (Memory.resolve test st Acl.buckets.parents) st with
  | Some b => keys b
  | None => []
  end.

(** The parent edges stored under the bucket [parents], read with [get]. *)
Definition stored_parent (child p : string) : Prop :=
  In p (Memory.mget st Acl.buckets.parents child).

Inductive stored_ancestor : string -> string -> Prop :=
| stored_ancestor_self (r : string) : stored_ancestor r r
| stored_ancestor_step (r p a : string) :
    stored_parent r p -> stored_ancestor p a -> stored_ancestor r a.

End Defs.

End Hierarchy.

(** The algorithm of [areAnyRolesAllowed] as the specification words it. *)
Module Spec.

Section Defs.
Variable test : string -> string -> bool.
Variable st : Memory.store.
Variable resource : string.

(** The union of the permissions granted to [roles] directly on the resource. *)
Definition granted (roles : list string) : list string :=
  Memory.munion test st (Acl.allowsBucket resource) roles.

(** The requested permissions that [roles] do not satisfy directly. *)
Definition unsatisfied (roles requested : list string) : list string :=
  filter (fun p => negb (includes p (granted roles))) requested.

(** The parent roles of [roles], one level up. *)
Definition parents (roles : list string) : list string :=
  Memory.munion test st Acl.buckets.parents roles.

(** The check succeeds. *)
Inductive succeeds : list string -> list string -> Prop :=
| succeeds_wildcard (roles requested : list string) :
    In "*" (granted roles) -> succeeds roles requested
| succeeds_satisfied (roles requested : list string) :
    ~ In "*" (granted roles) ->
    unsatisfied roles requested = [] -> succeeds roles requested
| succeeds_parents (roles requested : list string) :
    ~ In "*" (granted roles) ->
    unsatisfied roles requested <> [] ->
    parents roles <> [] ->
    succeeds (parents roles) (unsatisfied roles requested) ->
    succeeds roles requested.

(** The check fails. *)
Inductive fails : list string -> list string -> Prop :=
| fails_no_parents (roles requested : list string) :
    ~ In "*" (granted roles) ->
    unsatisfied roles requested <> [] ->
    parents roles = [] -> fails roles requested
| fails_parents (roles requested : list string) :
    ~ In "*" (granted roles) ->
    unsatisfied roles requested <> [] ->
    parents roles <> [] ->
    fails (parents roles) (unsatisfied roles requested) ->
    fails roles requested.

(** Permission [p] is granted on the resource to one of [roles] or to one
    of their ancestors. *)
Definition holds (roles : list string) (p : string) : Prop :=
  exists r a, In r roles /\ Hierarchy.ancestor test st r a /\ In p (granted [a]).

(** Every requested permission is held somewhere in the closure of a
    non-empty role set, or the wildcard is. *)
Definition closure_allows (roles requested : list string) : Prop :=
  roles <> [] /\
  (holds roles "*" \/ forall p, In p requested -> holds roles p).

(** One of [roles], or one of their ancestors, lists the resource [res] in
    the resources bucket. *)
Definition listed (roles : list string) (res : string) : Prop :=
  exists r a, In r roles /\ Hierarchy.ancestor test st r a /\
              In res (Memory.mget st Acl.buckets.resources a).

(** The decision for a role set. *)
Definition allowed (roles requested : list string) : Prop :=
  roles <> [] /\ succeeds roles requested.

Definition denied (roles requested : list string) : Prop :=
  roles = [] \/ fails roles requested.

End Defs.

(** The users bucket and the roles bucket mirror each other. *)
Definition mirror (st : Memory.store) : Prop :=
  forall u r,
    In r (Memory.mget st Acl.buckets.users u) <->
    In u (Memory.mget st Acl.buckets.roles r).

(** Two result objects are the same map from resources to permission
    sets: the same resources, and for each the same permissions. *)
Definition same_map (m1 m2 : obj (list string)) : Prop :=
  forall resource,
    match prop resource m1, prop resource m2 with
    | Some v1, Some v2 => forall x, In x v1 <-> In x v2
    | None, None => True
    | _, _ => False
    end.

(** No stored array holds a value twice. *)
Definition duplicate_free (st : Memory.store) : Prop :=
  forall bucket key, NoDup (Memory.mget st bucket key).

End Spec.

(* ------------------------------------------------------------------ *)
(** ** Concrete stores *)

Module Examples.

(** The store left by [allow("admin", "blogs", "*")],
    [allow("guest", "blogs", "view")], [addRoleParents("member", "admin")]
    and [addUserRoles("joed", "member")] on an empty memory backend. *)
Definition office : Memory.store :=
  [("meta", [("roles", ["member"; "guest"; "admin"]); ("users", ["joed"])]);
   ("allows_blogs", [("admin", ["*"]); ("guest", ["view"])]);
   ("resources", [("admin", ["blogs"]); ("guest", ["blogs"])]);
   ("parents", [("member", ["admin"])]);
   ("users", [("joed", ["member"])]);
   ("roles", [("member", ["joed"])])].

(** The store left by [allow("guest", ".logs", "view")] and
    [addUserRoles("joed", "guest")] on an empty memory backend. *)
Definition logs : Memory.store :=
  [("meta", [("roles", ["guest"]); ("users", ["joed"])]);
   ("allows_.logs", [("guest", ["view"])]);
   ("resources", [("guest", [".logs"])]);
   ("users", [("joed", ["guest"])]);
   ("roles", [("guest", ["joed"])])].

(** The store left by [addRoleParents("staff", "staff")] on an empty memory
    backend: a role that is its own parent. *)
Definition loop : Memory.store :=
  [("meta", [("roles", ["staff"])]); ("parents", [("staff", ["staff"])])].

End Examples.

(* ------------------------------------------------------------------ *)
(** * Properties *)

(** ** Arrays and lodash *)

Lemma includes_In (x : string) (arr : list string) :
  includes x arr = true <-> In x arr.
Proof.
  induction arr as [|y ys IH]; simpl.
  - split; [discriminate | tauto].
  - rewrite orb_true_iff, IH, String.eqb_eq. tauto.
Qed.

Lemma includes_not_In (x : string) (arr : list string) :
  includes x arr = false <-> ~ In x arr.
Proof.
  rewrite <- includes_In. destruct (includes x arr); split; congruence.
Qed.

Lemma In_uniq_acc (x : string) (arr seen : list string) :
  In x (Lodash.uniq_acc seen arr) <-> In x arr /\ ~ In x seen.
Proof.
  revert seen. induction arr as [|y ys IH]; intros seen; simpl.
  - tauto.
  - destruct (includes y seen) eqn:E.
    + apply includes_In in E. rewrite IH.
      split; [tauto|]. intros [[->|H] Hn]; tauto.
    + apply includes_not_In in E. simpl. rewrite IH. simpl.
      destruct (string_dec y x) as [->|Hne]; [tauto|]. tauto.
Qed.

Lemma In_uniq (x : string) (arr : list string) :
  In x (Lodash.uniq arr) <-> In x arr.
Proof. unfold Lodash.uniq. rewrite In_uniq_acc. simpl. tauto. Qed.

Lemma In_union (x : string) (a b : list string) :
  In x (Lodash.union a b) <-> In x a \/ In x b.
Proof. unfold Lodash.union. rewrite In_uniq. apply in_app_iff. Qed.

Lemma In_difference (x : string) (arr vals : list string) :
  In x (Lodash.difference arr vals) <-> In x arr /\ ~ In x vals.
Proof.
  unfold Lodash.difference. rewrite filter_In, negb_true_iff, includes_not_In.
  tauto.
Qed.

Lemma uniq_nil_inv (arr : list string) : Lodash.uniq arr = [] -> arr = [].
Proof.
  destruct arr as [|x xs]; [reflexivity|].
  unfold Lodash.uniq. simpl. discriminate.
Qed.

(** ** Objects *)

Section ObjFacts.
Variable A : Type.
Implicit Types (o : obj A) (k : string) (v : A).

Lemma prop_assign_same k v o : prop k (assign k v o) = Some v.
Proof.
  induction o as [|[k' v'] rest IH]; simpl.
  - now rewrite String.eqb_refl.
  - destruct (k' =? k) eqn:E; simpl; rewrite E; auto.
Qed.

Lemma prop_assign_other k k' v o : k' <> k -> prop k (assign k' v o) = prop k o.
Proof.
  intros Hne. induction o as [|[k1 v1] rest IH]; simpl.
  - destruct (k' =? k) eqn:E; [apply String.eqb_eq in E; contradiction | reflexivity].
  - destruct (k1 =? k') eqn:E1; simpl.
    + apply String.eqb_eq in E1. subst k1.
      destruct (k' =? k) eqn:E; [apply String.eqb_eq in E; contradiction | reflexivity].
    + destruct (k1 =? k); auto.
Qed.

Lemma prop_assign k k' v o :
  prop k (assign k' v o) = if k' =? k then Some v else prop k o.
Proof.
  destruct (k' =? k) eqn:E.
  - apply String.eqb_eq in E. subst. apply prop_assign_same.
  - apply String.eqb_neq in E. now apply prop_assign_other.
Qed.

Lemma prop_delete k k' o :
  prop k (delete k' o) = if k' =? k then None else prop k o.
Proof.
  induction o as [|[k1 v1] rest IH]; simpl.
  - now destruct (k' =? k).
  - destruct (k1 =? k') eqn:E1; simpl.
    + apply String.eqb_eq in E1. subst k1. rewrite IH.
      destruct (k' =? k); reflexivity.
    + rewrite IH. destruct (k1 =? k) eqn:E2; [|reflexivity].
      apply String.eqb_eq in E2. subst k1.
      rewrite String.eqb_sym, E1. reflexivity.
Qed.

Lemma prop_Some_keys k v o : prop k o = Some v -> In k (keys o).
Proof.
  induction o as [|[k1 v1] rest IH]; simpl; [discriminate|].
  destruct (k1 =? k) eqn:E.
  - apply String.eqb_eq in E. auto.
  - auto.
Qed.

End ObjFacts.

(** ** The memory backend's queries *)

Section MemoryQueries.
Variable test : string -> string -> bool.
Implicit Types (st : Memory.store) (b : obj (list string)).

Lemma In_keyArrays x b ks :
  In x (Memory.keyArrays b ks) <->
  exists k v, In k ks /\ prop k b = Some v /\ In x v.
Proof.
  induction ks as [|k rest IH]; simpl.
  - split; [tauto | intros (k & v & [] & _)].
  - destruct (prop k b) as [v|] eqn:E.
    + rewrite in_app_iff, IH. split.
      * intros [H | (k' & v' & Hk & Hp & Hx)]; eauto 6.
      * intros (k' & v' & [<- | Hk] & Hp & Hx).
        -- left. congruence.
        -- right. eauto.
    + rewrite IH. split.
      * intros (k' & v' & Hk & Hp & Hx). eauto 6.
      * intros (k' & v' & [<- | Hk] & Hp & Hx); [congruence | eauto].
Qed.

Lemma In_munion x st bucket ks :
  In x (Memory.munion test st bucket ks) <->
  exists b k v, prop (Memory.resolve test st bucket) st = Some b /\
                In k ks /\ prop k b = Some v /\ In x v.
Proof.
  unfold Memory.munion.
  destruct (prop (Memory.resolve test st bucket) st) as [b|].
  - unfold Lodash.union1. rewrite In_uniq, In_keyArrays. split.
    + intros (k & v & H). exists b, k, v. tauto.
    + intros (b' & k & v & Hb & H). exists k, v. congruence.
  - split; [intros [] | intros (b & k & v & Hb & _); discriminate].
Qed.

(** [union] over a key list is the union of the single-key queries. *)
Lemma In_munion_keys x st bucket ks :
  In x (Memory.munion test st bucket ks) <->
  exists k, In k ks /\ In x (Memory.munion test st bucket [k]).
Proof.
  rewrite In_munion. split.
  - intros (b & k & v & Hb & Hk & Hp & Hx). exists k. split; [assumption|].
    apply In_munion. exists b, k, v. simpl. tauto.
  - intros (k & Hk & H). apply In_munion in H.
    destruct H as (b & k' & v & Hb & [<- | []] & Hp & Hx). eauto 8.
Qed.

(** When the bucket exists, a stored value is found by [union]. *)
Lemma mget_In_munion x st bucket k ks :
  In x (Memory.mget st bucket k) -> In k ks ->
  In x (Memory.munion test st bucket ks).
Proof.
  unfold Memory.mget. intros H Hk.
  destruct (prop bucket st) as [b|] eqn:Eb; [|contradiction].
  destruct (prop k b) as [v|] eqn:Ev; [|contradiction].
  apply In_munion. exists b, k, v.
  unfold Memory.resolve. rewrite Eb. auto.
Qed.

Lemma munion_nil st bucket : Memory.munion test st bucket [] = [].
Proof. unfold Memory.munion. destruct (prop _ st); reflexivity. Qed.

End MemoryQueries.

(** ** Decisions *)

Section Decisions.
Variable test : string -> string -> bool.
Implicit Types (st : Memory.store) (roles requested : list string).

Local Abbreviation R := (Memory.read test).
Local Abbreviation check := (@Acl._checkPermissions _ R).

(** One unfolding of [_checkPermissions], in the specification's terms. *)
Lemma check_unfold fuel st roles resource requested :
  check fuel st roles resource requested =
  if includes "*" (Spec.granted test st resource roles) then Some true
  else match Spec.unsatisfied test st resource roles requested with
       | [] => Some true
       | (_ :: _) as rest =>
           match Spec.parents test st roles with
           | [] => Some false
           | (_ :: _) as ps =>
               match fuel with
               | O => None
               | Datatypes.S fuel' => check fuel' st ps resource rest
               end
           end
       end.
Proof. destruct fuel; reflexivity. Qed.

(** More fuel does not change an answer. *)
Lemma check_fuel_mono fuel fuel' st roles resource requested (v : bool) :
  fuel <= fuel' ->
  check fuel st roles resource requested = Some v ->
  check fuel' st roles resource requested = Some v.
Proof.
  revert fuel' roles requested.
  induction fuel as [|n IH]; intros fuel' roles requested Hle;
    rewrite (check_unfold fuel'), check_unfold;
    destruct (includes "*" _); auto;
    destruct (Spec.unsatisfied _ _ _ _ _); auto;
    destruct (Spec.parents _ _ _); auto.
  - discriminate.
  - destruct fuel' as [|m]; [lia|]. apply IH. lia.
Qed.

Lemma check_true_succeeds fuel st roles resource requested :
  check fuel st roles resource requested = Some true ->
  Spec.succeeds test st resource roles requested.
Proof.
  revert roles requested.
  induction fuel as [|n IH]; intros roles requested; rewrite check_unfold;
    destruct (includes "*" _) eqn:Ew;
    try (intros _; apply Spec.succeeds_wildcard; now apply includes_In);
    apply includes_not_In in Ew;
    destruct (Spec.unsatisfied _ _ _ _ _) eqn:Eu;
    try (intros _; now apply Spec.succeeds_satisfied);
    destruct (Spec.parents _ _ _) eqn:Ep; try discriminate.
  intros H. apply Spec.succeeds_parents; try congruence.
  rewrite Eu, Ep. now apply IH.
Qed.

Lemma check_false_fails fuel st roles resource requested :
  check fuel st roles resource requested = Some false ->
  Spec.fails test st resource roles requested.
Proof.
  revert roles requested.
  induction fuel as [|n IH]; intros roles requested; rewrite check_unfold;
    destruct (includes "*" _) eqn:Ew; try discriminate;
    apply includes_not_In in Ew;
    destruct (Spec.unsatisfied _ _ _ _ _) eqn:Eu; try discriminate;
    destruct (Spec.parents _ _ _) eqn:Ep; try discriminate;
    try (intros _; apply Spec.fails_no_parents; congruence).
  intros H. apply Spec.fails_parents; try congruence.
  rewrite Eu, Ep. now apply IH.
Qed.

Lemma succeeds_check_true st roles resource requested :
  Spec.succeeds test st resource roles requested ->
  exists fuel, check fuel st roles resource requested = Some true.
Proof.
  induction 1 as [roles requested Hw | roles requested Hw Hu
                 | roles requested Hw Hu Hp _ [n IH]].
  - exists 0. rewrite check_unfold.
    apply includes_In in Hw. now rewrite Hw.
  - exists 0. rewrite check_unfold.
    apply includes_not_In in Hw. now rewrite Hw, Hu.
  - exists (Datatypes.S n). rewrite check_unfold.
    apply includes_not_In in Hw. rewrite Hw.
    destruct (Spec.unsatisfied _ _ _ _ _); [congruence|].
    destruct (Spec.parents _ _ _); [congruence|]. exact IH.
Qed.

Lemma fails_check_false st roles resource requested :
  Spec.fails test st resource roles requested ->
  exists fuel, check fuel st roles resource requested = Some false.
Proof.
  induction 1 as [roles requested Hw Hu Hp
                 | roles requested Hw Hu Hp _ [n IH]].
  - exists 0. rewrite check_unfold.
    apply includes_not_In in Hw. rewrite Hw, Hp.
    destruct (Spec.unsatisfied _ _ _ _ _); [congruence | reflexivity].
  - exists (Datatypes.S n). rewrite check_unfold.
    apply includes_not_In in Hw. rewrite Hw.
    destruct (Spec.unsatisfied _ _ _ _ _); [congruence|].
    destruct (Spec.parents _ _ _); [congruence|]. exact IH.
Qed.

(** [areAnyRolesAllowed] against the algorithm of the specification, both
    answers. *)
Lemma areAnyRolesAllowed_algorithm st (roles : values) resource (permissions : values) :
  ((exists fuel,
       @Acl.areAnyRolesAllowed _ R fuel st roles resource permissions = Some true)
   <-> Spec.allowed test st resource (makeArray roles) (makeArray permissions))
  /\
  ((exists fuel,
       @Acl.areAnyRolesAllowed _ R fuel st roles resource permissions = Some false)
   <-> Spec.denied test st resource (makeArray roles) (makeArray permissions)).
Proof.
  unfold Acl.areAnyRolesAllowed, Spec.allowed, Spec.denied.
  destruct (makeArray roles) as [|r rs] eqn:E.
  - split; split.
    + intros [_ H]; discriminate.
    + intros [H _]; congruence.
    + auto.
    + intros _. exists 0. reflexivity.
  - split; split.
    + intros [fuel H]. split; [discriminate|]. eapply check_true_succeeds; eauto.
    + intros [_ H]. now apply succeeds_check_true.
    + intros [fuel H]. right. eapply check_false_fails; eauto.
    + intros [H | H]; [discriminate|]. now apply fails_check_false.
Qed.



End Decisions.

(** ** Wildcard grants *)

Section Wildcard.
Variable test : string -> string -> bool.
Variable st : Memory.store.

Local Abbreviation R := (Memory.read test).
Local Abbreviation check := (@Acl._checkPermissions _ R).

Lemma wildcard_reached resource d r :
  Hierarchy.stored_ancestor st d r ->
  In "*" (Memory.mget st (Acl.allowsBucket resource) r) ->
  forall roles requested, In d roles ->
  exists fuel0, forall fuel, fuel0 <= fuel ->
    check fuel st roles resource requested = Some true.
Proof.
  intros Hanc Hstar.
  induction Hanc as [r | r p a Hp _ IH]; intros roles requested Hd.
  - exists 0. intros fuel _. rewrite check_unfold.
    assert (Hw : In "*" (Spec.granted test st resource roles))
      by (eapply mget_In_munion; eauto).
    apply includes_In in Hw. now rewrite Hw.
  - assert (Hin : In p (Spec.parents test st roles))
      by (eapply mget_In_munion; eauto).
    destruct (IH Hstar (Spec.parents test st roles)
                (Spec.unsatisfied test st resource roles requested) Hin)
      as [n Hn].
    exists (Datatypes.S n). intros fuel Hle. rewrite check_unfold.
    destruct (includes "*" _); [reflexivity|].
    destruct (Spec.unsatisfied _ _ _ _ _) as [|q qs] eqn:Eu; [reflexivity|].
    destruct (Spec.parents _ _ _) as [|q' qs'] eqn:Ep; [contradiction|].
    destruct fuel as [|m]; [lia|]. apply Hn. lia.
Qed.

(** C2. When [*] is stored for role [r] on a resource, every user holding
    [r] or a role with [r] among its ancestors is allowed any requested
    permissions on that resource.  The hierarchy need not even be acyclic:
    the check returns as soon as the level of [r] is reached. *)
Theorem wildcard_allows_descendants resource r d userId (permissions : values) :
  In "*" (Memory.mget st (Acl.allowsBucket resource) r) ->
  In d (Acl.userRoles (R := R) st userId) ->
  Hierarchy.stored_ancestor st d r ->
  exists fuel0, forall fuel, fuel0 <= fuel ->
    @Acl.isAllowed _ R fuel st userId resource permissions = Some true.
Proof.
  intros Hstar Hd Hanc.
  destruct (@wildcard_reached resource d r Hanc Hstar (Acl.userRoles (R := R) st userId)
              (makeArray permissions) Hd) as [n Hn].
  exists n. intros fuel Hle.
  unfold Acl.isAllowed, Acl.areAnyRolesAllowed.
  unfold Acl.userRoles in *. simpl get in *.
  destruct (Memory.mget st Acl.buckets.users userId) as [|u us] eqn:E;
    [contradiction|].
  simpl makeArray. now apply Hn.
Qed.

End Wildcard.

(** ** The role closure *)

Section Closure.
Variable test : string -> string -> bool.
Variable st : Memory.store.

Local Abbreviation R := (Memory.read test).
Local Abbreviation rolesParents := (@Acl._rolesParents _ R st).
Local Abbreviation allRoles := (fun fuel => @Acl._allRoles _ R fuel st).
Local Abbreviation level := (Hierarchy.level test st).
Local Abbreviation parent := (Hierarchy.parent test st).
Local Abbreviation ancestor := (Hierarchy.ancestor test st).
Local Abbreviation above := (Hierarchy.above test st).
Local Abbreviation path := (Hierarchy.path test st).

Lemma In_rolesParents x roles :
  In x (rolesParents roles) <-> exists r, In r roles /\ parent r x.
Proof. apply In_munion_keys. Qed.

Lemma rolesParents_nil : rolesParents [] = [].
Proof.
  unfold Acl._rolesParents. simpl union. unfold Memory.munion.
  destruct (prop _ st); reflexivity.
Qed.

Lemma level_nil n : level n [] = [].
Proof. induction n as [|n IH]; cbn [Hierarchy.level]; [reflexivity|]. now rewrite rolesParents_nil. Qed.

Lemma level_succ n roles : level (Datatypes.S n) roles = rolesParents (level n roles).
Proof.
  revert roles. induction n as [|n IH]; intros roles; [reflexivity|].
  change (level (Datatypes.S (Datatypes.S n)) roles)
    with (level (Datatypes.S n) (rolesParents roles)).
  rewrite IH. reflexivity.
Qed.

Lemma allRoles_unfold fuel roles :
  allRoles fuel roles =
  match rolesParents roles with
  | [] => Some roles
  | (_ :: _) as ps =>
      match fuel with
      | O => None
      | Datatypes.S fuel' =>
          match allRoles fuel' ps with
          | Some parentRoles => Some (Lodash.union roles parentRoles)
          | None => None
          end
      end
  end.
Proof. destruct fuel; reflexivity. Qed.

(** More fuel does not change the result. *)
Lemma allRoles_fuel_mono fuel fuel' roles res :
  fuel <= fuel' ->
  allRoles fuel roles = Some res -> allRoles fuel' roles = Some res.
Proof.
  revert fuel' roles res.
  induction fuel as [|f IH]; intros fuel' roles res Hle;
    rewrite (allRoles_unfold fuel'), allRoles_unfold;
    destruct (rolesParents roles) as [|p ps]; auto; try discriminate.
  destruct fuel' as [|f']; [lia|].
  destruct (allRoles f (p :: ps)) as [a|] eqn:Ea; [|discriminate].
  rewrite (IH f' _ _ ltac:(lia) Ea). auto.
Qed.

(** The result collects the levels. *)
Lemma allRoles_levels fuel roles res :
  allRoles fuel roles = Some res ->
  forall x, In x res <-> exists n, In x (level n roles).
Proof.
  revert roles res. induction fuel as [|f IH]; intros roles res;
    rewrite allRoles_unfold; destruct (rolesParents roles) as [|p ps] eqn:Ep.
  1,3: intros [= <-] x; split;
       [ intros H; now exists 0
       | intros [[|n] H]; [exact H|]; cbn [Hierarchy.level] in H;
         rewrite Ep, level_nil in H; contradiction ].
  - discriminate.
  - destruct (allRoles f (p :: ps)) as [pr|] eqn:Er; [|discriminate].
    intros [= <-] x. rewrite In_union, (IH _ _ Er x). split.
    + intros [H | [n H]]; [now exists 0|].
      exists (Datatypes.S n). cbn [Hierarchy.level]. now rewrite Ep.
    + intros [[|n] H]; [now left|]. right. exists n.
      cbn [Hierarchy.level] in H. now rewrite Ep in H.
Qed.

Lemma level_ancestor n roles x :
  In x (level n roles) -> exists r, In r roles /\ ancestor r x.
Proof.
  revert roles. induction n as [|n IH]; intros roles H.
  - exists x. split; [exact H | constructor].
  - cbn [Hierarchy.level] in H. apply IH in H. destruct H as (r' & Hr' & Hanc).
    apply In_rolesParents in Hr'. destruct Hr' as (r & Hr & Hp).
    exists r. split; [exact Hr|]. econstructor; eauto.
Qed.

Lemma ancestor_level r x :
  ancestor r x -> forall roles, In r roles -> exists n, In x (level n roles).
Proof.
  induction 1 as [r | r p a Hp _ IH]; intros roles Hr.
  - now exists 0.
  - destruct (IH (rolesParents roles)) as [n Hn].
    + apply In_rolesParents. eauto.
    + now exists (Datatypes.S n).
Qed.

(** A parent stored under the bucket [parents] is a parent edge; when that
    bucket exists there are no others. *)
Lemma stored_parent_parent r p :
  Hierarchy.stored_parent st r p -> parent r p.
Proof.
  intros H. unfold Hierarchy.parent, Hierarchy.parentsOf, Acl._rolesParents.
  eapply mget_In_munion; [exact H | now left].
Qed.

Lemma parent_stored_parent r p :
  prop Acl.buckets.parents st <> None ->
  parent r p -> Hierarchy.stored_parent st r p.
Proof.
  unfold Hierarchy.parent, Hierarchy.parentsOf, Acl._rolesParents,
    Hierarchy.stored_parent, Memory.mget.
  cbn [union Memory.read]. rewrite In_munion. unfold Memory.resolve.
  destruct (prop Acl.buckets.parents st) as [b|] eqn:Eb; [|congruence].
  intros _ (b' & k & v & Hb & [<- | []] & Hk & Hp).
  rewrite Eb in Hb. injection Hb as <-. now rewrite Hk.
Qed.

(** Fuel [fuel] is enough exactly when some level up to [fuel] has no parents. *)
Lemma allRoles_returns_iff fuel roles :
  (exists res, allRoles fuel roles = Some res) <->
  exists n, n <= fuel /\ level (Datatypes.S n) roles = [].
Proof.
  revert roles. induction fuel as [|f IH]; intros roles;
    rewrite allRoles_unfold; destruct (rolesParents roles) as [|p ps] eqn:Ep.
  1,3: split; [intros _; exists 0; split; [lia | cbn [Hierarchy.level]; exact Ep] | eauto].
  - split; [intros [res H]; discriminate|].
    intros (n & Hn & H). assert (n = 0) by lia. subst n.
    cbn [Hierarchy.level] in H. congruence.
  - rewrite <- Ep. split.
    + intros [res H].
      destruct (allRoles f (rolesParents roles)) as [pr|] eqn:Er; [|discriminate].
      destruct (proj1 (IH (rolesParents roles))) as (n & Hn & Hl); [eauto|].
      exists (Datatypes.S n). split; [lia | exact Hl].
    + intros ([|n] & Hn & Hl); [cbn [Hierarchy.level] in Hl; congruence|].
      destruct (proj2 (IH (rolesParents roles))) as [pr Hpr].
      * exists n. split; [lia | exact Hl].
      * rewrite Hpr. eauto.
Qed.

(** Paths. *)
Lemma level_path n roles x :
  In x (level n roles) ->
  exists r l, In r roles /\ path r l x /\ List.length l = n.
Proof.
  revert roles. induction n as [|n IH]; intros roles H.
  - exists x, []. split; [exact H|]. split; [constructor | reflexivity].
  - cbn [Hierarchy.level] in H. apply IH in H. destruct H as (r' & l & Hr' & Hpath & Hlen).
    apply In_rolesParents in Hr'. destruct Hr' as (r & Hr & Hp).
    exists r, (r :: l). split; [exact Hr|]. split; [econstructor; eauto | simpl; lia].
Qed.

Lemma parent_dom r p : parent r p -> In r (Hierarchy.dom test st).
Proof.
  unfold Hierarchy.parent, Hierarchy.parentsOf, Acl._rolesParents. simpl union.
  rewrite In_munion. intros (b & k & v & Hb & [<- | []] & Hk & _).
  unfold Hierarchy.dom. rewrite Hb. eapply prop_Some_keys; eauto.
Qed.

Lemma path_dom r l x : path r l x -> incl l (Hierarchy.dom test st).
Proof.
  induction 1 as [r | r p l x Hp _ IH]; intros y Hy; [contradiction|].
  destruct Hy as [<- | Hy]; [eapply parent_dom; eauto | auto].
Qed.

Lemma path_reaches r l x y :
  path r l x -> In y l -> r = y \/ above r y.
Proof.
  induction 1 as [r | r p l x Hp _ IH]; intros Hy; [contradiction|].
  destruct Hy as [-> | Hy]; [now left|]. right.
  destruct (IH Hy) as [<- | Hab].
  - now constructor.
  - econstructor 2; eauto.
Qed.

Lemma path_NoDup r l x :
  Hierarchy.acyclic test st -> path r l x -> NoDup l.
Proof.
  intros Hacyc. induction 1 as [r | r p l x Hp Hpath IH]; constructor; [|exact IH].
  intros Hin. apply (Hacyc r).
  destruct (@path_reaches _ _ _ _ Hpath Hin) as [<- | Hab].
  - now constructor.
  - econstructor 2; eauto.
Qed.

(** In an acyclic hierarchy the levels run out. *)
Lemma acyclic_level_empty roles n :
  Hierarchy.acyclic test st ->
  List.length (Hierarchy.dom test st) < n -> level n roles = [].
Proof.
  intros Hacyc Hlt.
  destruct (level n roles) as [|x xs] eqn:E; [reflexivity|].
  assert (Hx : In x (level n roles)) by (rewrite E; now left).
  apply level_path in Hx. destruct Hx as (r & l & _ & Hpath & Hlen).
  pose proof (NoDup_incl_length (@path_NoDup _ _ _ Hacyc Hpath) (@path_dom _ _ _ Hpath)).
  lia.
Qed.

(** The first level without parents. *)
Lemma first_empty_level roles bound :
  level (Datatypes.S bound) roles = [] ->
  exists depth, depth <= bound /\
    level (Datatypes.S depth) roles = [] /\
    forall i, i < depth -> level (Datatypes.S i) roles <> [].
Proof.
  induction bound as [|b IH]; intros H.
  - exists 0. split; [lia|]. split; [exact H | intros i Hi; lia].
  - destruct (level (Datatypes.S b) roles) as [|y ys] eqn:E.
    + destruct (IH eq_refl) as (d & Hd & H0 & Hmin).
      exists d. split; [lia|]. split; [exact H0 | exact Hmin].
    + exists (Datatypes.S b). split; [lia|]. split; [exact H|].
      intros i Hi Hempty.
      assert (Hall : forall k, level (Datatypes.S i + k) roles = []).
      { induction k as [|k IHk]; [now rewrite Nat.add_0_r|].
        rewrite Nat.add_succ_r, level_succ, IHk. apply rolesParents_nil. }
      specialize (Hall (b - i)).
      replace (Datatypes.S i + (b - i)) with (Datatypes.S b) in Hall by lia.
      congruence.
Qed.


End Closure.

(** ** The check, in terms of the role closure *)

Section ClosureCheck.
Variable test : string -> string -> bool.
Variable st : Memory.store.
Variable resource : string.

Local Abbreviation level := (Hierarchy.level test st).
Local Abbreviation granted := (Spec.granted test st resource).
Local Abbreviation unsatisfied := (Spec.unsatisfied test st resource).
Local Abbreviation succeeds := (Spec.succeeds test st resource).

Lemma parents_level roles : Spec.parents test st roles = level 1 roles.
Proof. reflexivity. Qed.

Lemma granted_nil : granted [] = [].
Proof. apply munion_nil. Qed.

Lemma holds_levels roles p :
  Spec.holds test st resource roles p <-> exists n, In p (granted (level n roles)).
Proof.
  unfold Spec.holds. split.
  - intros (r & a & Hr & Hanc & Hp).
    destruct (@ancestor_level test st r a Hanc roles Hr) as [n Hn].
    exists n. apply In_munion_keys. eauto.
  - intros [n H]. apply In_munion_keys in H. destruct H as (a & Ha & Hp).
    destruct (@level_ancestor test st n roles a Ha) as (r & Hr & Hanc). eauto.
Qed.

Lemma In_unsatisfied p roles requested :
  In p (unsatisfied roles requested) <-> In p requested /\ ~ In p (granted roles).
Proof.
  unfold Spec.unsatisfied. now rewrite filter_In, negb_true_iff, includes_not_In.
Qed.

Lemma In_dec_granted p roles : In p (granted roles) \/ ~ In p (granted roles).
Proof. destruct (in_dec string_dec p (granted roles)); auto. Qed.

Lemma succeeds_holds roles requested :
  succeeds roles requested ->
  Spec.holds test st resource roles "*" \/
  forall p, In p requested -> Spec.holds test st resource roles p.
Proof.
  induction 1 as [roles requested Hw | roles requested Hw Hu
                 | roles requested Hw Hu Hp _ IH].
  - left. apply holds_levels. now exists 0.
  - right. intros p Hp. apply holds_levels. exists 0.
    destruct (In_dec_granted p roles) as [H | H]; [exact H|].
    assert (Hin : In p (unsatisfied roles requested)) by now apply In_unsatisfied.
    rewrite Hu in Hin. contradiction.
  - assert (Hup : forall p, Spec.holds test st resource (Spec.parents test st roles) p ->
                            Spec.holds test st resource roles p).
    { intros p H. apply holds_levels in H. destruct H as [n H].
      apply holds_levels. now exists (Datatypes.S n). }
    destruct IH as [IH | IH]; [left; now apply Hup|].
    right. intros p Hin.
    destruct (In_dec_granted p roles) as [H | H].
    + apply holds_levels. now exists 0.
    + apply Hup, IH. now apply In_unsatisfied.
Qed.

Lemma level_nonempty_parents n roles x :
  In x (granted (level (Datatypes.S n) roles)) -> Spec.parents test st roles <> [].
Proof.
  cbn [Hierarchy.level]. intros H E.
  change (@Acl._rolesParents _ (Memory.read test) st roles)
    with (Spec.parents test st roles) in H.
  rewrite E, level_nil, granted_nil in H. exact H.
Qed.

(** One step of the algorithm, once its continuation is known to succeed. *)
Lemma succeeds_step roles requested :
  (unsatisfied roles requested <> [] ->
   Spec.parents test st roles <> [] /\
   succeeds (Spec.parents test st roles) (unsatisfied roles requested)) ->
  succeeds roles requested.
Proof.
  intros H.
  destruct (In_dec_granted "*" roles) as [Hw | Hw]; [now constructor|].
  destruct (unsatisfied roles requested) as [|q qs] eqn:Eu.
  - now apply Spec.succeeds_satisfied.
  - destruct H as [Hp Hs]; [discriminate|].
    apply Spec.succeeds_parents; rewrite ?Eu; auto. discriminate.
Qed.

Lemma wildcard_level_succeeds n roles requested :
  In "*" (granted (level n roles)) -> succeeds roles requested.
Proof.
  revert roles requested. induction n as [|n IH]; intros roles requested H.
  - now constructor.
  - apply succeeds_step. intros _. split.
    + eapply level_nonempty_parents; eauto.
    + apply IH. exact H.
Qed.

Lemma bounded_levels_succeed bound roles requested :
  (forall p, In p requested ->
             exists i, i <= bound /\ In p (granted (level i roles))) ->
  succeeds roles requested.
Proof.
  revert roles requested. induction bound as [|b IH]; intros roles requested H;
    apply succeeds_step; intros Hne.
  - destruct (unsatisfied roles requested) as [|q qs] eqn:Eu; [congruence|].
    assert (Hq : In q (unsatisfied roles requested)) by (rewrite Eu; now left).
    apply In_unsatisfied in Hq. destruct Hq as [Hq Hn].
    destruct (H q Hq) as (i & Hi & Hin).
    assert (i = 0) by lia. subst i. contradiction.
  - assert (Hrest : forall p, In p (unsatisfied roles requested) ->
                      exists i, i <= b /\
                        In p (granted (level i (Spec.parents test st roles)))).
    { intros p Hp. apply In_unsatisfied in Hp. destruct Hp as [Hp Hn].
      destruct (H p Hp) as ([|i] & Hi & Hin); [contradiction|].
      exists i. split; [lia | exact Hin]. }
    split; [|now apply IH].
    destruct (unsatisfied roles requested) as [|q qs] eqn:Eu; [congruence|].
    destruct (Hrest q (or_introl eq_refl)) as (i & _ & Hin).
    intros E. rewrite E, level_nil, granted_nil in Hin. exact Hin.
Qed.

Lemma levels_bound (requested : list string) (roles : list string) :
  (forall p, In p requested -> exists i, In p (granted (level i roles))) ->
  exists bound, forall p, In p requested ->
    exists i, i <= bound /\ In p (granted (level i roles)).
Proof.
  induction requested as [|q qs IH]; intros H.
  - exists 0. intros p [].
  - destruct IH as [b Hb]; [intros p Hp; apply H; now right|].
    destruct (H q (or_introl eq_refl)) as [i Hi].
    exists (Nat.max b i). intros p [<- | Hp].
    + exists i. split; [lia | exact Hi].
    + destruct (Hb p Hp) as (j & Hj & Hin). exists j. split; [lia | exact Hin].
Qed.

(** The specified algorithm succeeds on a non-empty role set exactly when
    the wildcard, or else each requested permission, is granted to one of
    the roles or of their ancestors. *)
Lemma allowed_iff_closure roles requested :
  Spec.allowed test st resource roles requested <->
  Spec.closure_allows test st resource roles requested.
Proof.
  unfold Spec.allowed, Spec.closure_allows. split.
  - intros [Hne Hs]. split; [exact Hne|]. now apply succeeds_holds.
  - intros [Hne [Hw | Hall]]; split; try exact Hne.
    + apply holds_levels in Hw. destruct Hw as [n Hn].
      eapply wildcard_level_succeeds; eauto.
    + destruct (@levels_bound requested roles) as [b Hb].
      { intros p Hp. apply holds_levels. now apply Hall. }
      eapply bounded_levels_succeed; eauto.
Qed.

End ClosureCheck.

Section Allowed.
Variable test : string -> string -> bool.

Local Abbreviation R := (Memory.read test).


End Allowed.

(** ** The memory backend's mutations *)

Section MemoryMutations.
Implicit Types (st : Memory.store) (b : obj (list string)).

Lemma mget_lookup st bucket key :
  Memory.mget st bucket key =
  match Memory.lookup st bucket key with Some v => v | None => [] end.
Proof.
  unfold Memory.mget, Memory.lookup. destruct (prop bucket st); reflexivity.
Qed.

Lemma lookup_run_add st bucket key vals bucket' key' :
  Memory.lookup (Memory.run_add bucket key vals st) bucket' key' =
  if (bucket =? bucket') && (key =? key')
  then Some (match Memory.lookup st bucket key with
             | None => vals
             | Some old => Lodash.union vals old
             end)
  else Memory.lookup st bucket' key'.
Proof.
  unfold Memory.run_add, Memory.lookup.
  destruct (prop bucket st) as [b|] eqn:Eb.
  - rewrite Eb. destruct (prop key b) as [old|] eqn:Ek;
      rewrite prop_assign; destruct (bucket =? bucket') eqn:E; simpl; auto;
      apply String.eqb_eq in E; subst bucket';
      rewrite prop_assign, ?Eb; destruct (key =? key'); auto.
  - rewrite prop_assign_same. simpl.
    rewrite prop_assign. destruct (bucket =? bucket') eqn:E; simpl.
    + apply String.eqb_eq in E; subst bucket'. rewrite Eb.
      destruct (key =? key'); reflexivity.
    + now rewrite prop_assign, E.
Qed.

Lemma lookup_run_remove st bucket key vals bucket' key' :
  Memory.lookup (Memory.run_remove bucket key vals st) bucket' key' =
  if (bucket =? bucket') && (key =? key')
  then match Memory.lookup st bucket key with
       | None => None
       | Some old => Some (Lodash.difference old vals)
       end
  else Memory.lookup st bucket' key'.
Proof.
  unfold Memory.run_remove, Memory.lookup.
  destruct (prop bucket st) as [b|] eqn:Eb.
  - destruct (prop key b) as [old|] eqn:Ek.
    + rewrite prop_assign. destruct (bucket =? bucket') eqn:E; simpl; auto.
      apply String.eqb_eq in E; subst bucket'.
      rewrite prop_assign, Eb. destruct (key =? key'); auto.
    + destruct (bucket =? bucket') eqn:E; simpl; auto.
      apply String.eqb_eq in E; subst bucket'. rewrite Eb.
      destruct (key =? key') eqn:E'; auto.
      apply String.eqb_eq in E'; subst key'. auto.
  - destruct (bucket =? bucket') eqn:E; simpl; auto.
    apply String.eqb_eq in E; subst bucket'. rewrite Eb.
    destruct (key =? key'); reflexivity.
Qed.

Lemma prop_delete_all b ks key :
  prop key (fold_left (fun b k => delete k b) ks b) =
  if includes key ks then None else prop key b.
Proof.
  revert b. induction ks as [|k rest IH]; intros b; simpl; [reflexivity|].
  rewrite IH, prop_delete. destruct (k =? key), (includes key rest); reflexivity.
Qed.

Lemma lookup_run_del st bucket ks bucket' key' :
  Memory.lookup (Memory.run_del bucket ks st) bucket' key' =
  if (bucket =? bucket') && includes key' ks then None
  else Memory.lookup st bucket' key'.
Proof.
  unfold Memory.run_del, Memory.lookup.
  destruct (prop bucket st) as [b|] eqn:Eb.
  - rewrite prop_assign. destruct (bucket =? bucket') eqn:E; simpl; auto.
    apply String.eqb_eq in E; subst bucket'.
    rewrite prop_delete_all, Eb. reflexivity.
  - destruct (bucket =? bucket') eqn:E; simpl; auto.
    apply String.eqb_eq in E; subst bucket'. rewrite Eb.
    destruct (includes key' ks); reflexivity.
Qed.

End MemoryMutations.

Section MemoryMutationsIn.
Implicit Types (st : Memory.store).

Lemma mget_run_remove st bucket key vals bucket' key' :
  Memory.mget (Memory.run_remove bucket key vals st) bucket' key' =
  if (bucket =? bucket') && (key =? key')
  then Lodash.difference (Memory.mget st bucket key) vals
  else Memory.mget st bucket' key'.
Proof.
  rewrite !mget_lookup, lookup_run_remove.
  destruct ((bucket =? bucket') && (key =? key')); [|reflexivity].
  destruct (Memory.lookup st bucket key); reflexivity.
Qed.

Lemma mget_run_del st bucket ks bucket' key' :
  Memory.mget (Memory.run_del bucket ks st) bucket' key' =
  if (bucket =? bucket') && includes key' ks then []
  else Memory.mget st bucket' key'.
Proof.
  rewrite !mget_lookup, lookup_run_del.
  destruct ((bucket =? bucket') && includes key' ks); reflexivity.
Qed.

Lemma mget_run_add_other st bucket key vals bucket' key' :
  (bucket =? bucket') && (key =? key') = false ->
  Memory.mget (Memory.run_add bucket key vals st) bucket' key' =
  Memory.mget st bucket' key'.
Proof. intros E. now rewrite !mget_lookup, lookup_run_add, E. Qed.

Lemma In_mget_run_add x st bucket key vals :
  In x (Memory.mget (Memory.run_add bucket key vals st) bucket key) <->
  In x vals \/ In x (Memory.mget st bucket key).
Proof.
  rewrite !mget_lookup, lookup_run_add, !String.eqb_refl. simpl.
  destruct (Memory.lookup st bucket key).
  - apply In_union.
  - simpl. tauto.
Qed.

Lemma difference_nil (arr vals : list string) :
  (forall x, In x arr -> In x vals) -> Lodash.difference arr vals = [].
Proof.
  intros H. destruct (Lodash.difference arr vals) as [|y ys] eqn:E; [reflexivity|].
  assert (Hy : In y (Lodash.difference arr vals)) by (rewrite E; now left).
  apply In_difference in Hy. destruct Hy as [Hy Hn]. elim Hn. auto.
Qed.

Lemma allowsBucket_meta resource :
  (Acl.allowsBucket resource =? Acl.buckets.meta) = false /\
  (Acl.buckets.meta =? Acl.allowsBucket resource) = false.
Proof. split; reflexivity. Qed.

Lemma allowsBucket_resources resource :
  (Acl.allowsBucket resource =? Acl.buckets.resources) = false /\
  (Acl.buckets.resources =? Acl.allowsBucket resource) = false.
Proof. split; reflexivity. Qed.

End MemoryMutationsIn.

(** ** Granting and revoking *)

Section GrantRevoke.
Variable test : string -> string -> bool.
Implicit Types (st : Memory.store).

Local Abbreviation R := (Memory.read test).

(** [allow] with one role, one resource and one permission queues three
    additions. *)
Lemma allow_single st role resource P :
  Acl.allow (Str role) (Str resource) (Str P) st =
  Acl.Reply (Ok tt)
    (Memory.run_add Acl.buckets.resources role [resource]
       (Memory.run_add (Acl.allowsBucket resource) role [P]
          (Memory.run_add Acl.buckets.meta "roles" [role] st))).
Proof. reflexivity. Qed.

(** After [allow(role, resource, P)] the permission is stored for the pair. *)
Lemma allow_stores st role resource P :
  In P (Memory.mget (Acl.store_after (Acl.allow (Str role) (Str resource) (Str P) st))
                    (Acl.allowsBucket resource) role).
Proof.
  rewrite allow_single. cbn [Acl.store_after].
  pose proof (allowsBucket_resources resource) as [_ Hra].
  rewrite mget_run_add_other by now rewrite Hra.
  apply In_mget_run_add. left. now left.
Qed.

(** The two transactions of [removeAllow] for one resource and one named
    permission. *)
Lemma removeAllow_single st role resource P :
  P <> "" ->
  Acl.removeAllow (R := R) role (Str resource) (Some (Str P)) st =
  let st1 := Memory.run_remove (Acl.allowsBucket resource) role [P] st in
  Acl.Reply (Ok tt)
    (match Memory.mget st1 (Acl.allowsBucket resource) role with
     | [] => Memory.run_remove Acl.buckets.resources role [resource] st1
     | _ :: _ => st1
     end).
Proof.
  intros HP. apply String.eqb_neq in HP.
  unfold Acl.removeAllow, Acl.removePermissions. cbn [truthy makeArray].
  rewrite HP.
  cbn -[Memory.run_remove Memory.mget Acl.allowsBucket].
  destruct (Memory.mget _ _ _); reflexivity.
Qed.

(** With the empty string as permission the argument is falsy and the whole
    grant key is deleted. *)
Lemma removeAllow_single_empty st role resource :
  Acl.removeAllow (R := R) role (Str resource) (Some (Str "")) st =
  let st1 := Memory.run_remove Acl.buckets.resources role [resource]
               (Memory.run_del (Acl.allowsBucket resource) [role] st) in
  Acl.Reply (Ok tt)
    (match Memory.mget st1 (Acl.allowsBucket resource) role with
     | [] => Memory.run_remove Acl.buckets.resources role [resource] st1
     | _ :: _ => st1
     end).
Proof.
  unfold Acl.removeAllow, Acl.removePermissions.
  cbn -[Memory.run_remove Memory.run_del Memory.mget Acl.allowsBucket].
  destruct (Memory.mget _ _ _); reflexivity.
Qed.

End GrantRevoke.

Section GrantThenRevoke.
Variable test : string -> string -> bool.
Implicit Types (st : Memory.store).

Local Abbreviation R := (Memory.read test).

Lemma includes_refl (x : string) (rest : list string) : includes x (x :: rest) = true.
Proof. simpl. now rewrite String.eqb_refl. Qed.

(** C7. From a store in which the pair (role, resource) holds no permission
    other than [P], [allow(role, resource, P)] records [P] and the resource,
    and [removeAllow(role, resource, P)] right after it settles normally,
    leaves no permission stored for the pair and drops the resource from the
    role's listing in the resources bucket. *)
Theorem allow_then_removeAllow st role resource P :
  (forall x, In x (Memory.mget st (Acl.allowsBucket resource) role) -> x = P) ->
  let granted := Acl.store_after (Acl.allow (Str role) (Str resource) (Str P) st) in
  let revoked := Acl.removeAllow (R := R) role (Str resource) (Some (Str P)) granted in
  (In P (Memory.mget granted (Acl.allowsBucket resource) role) /\
   In resource (Memory.mget granted Acl.buckets.resources role)) /\
  Acl.outcome revoked = Ok tt /\
  Memory.mget (Acl.store_after revoked) (Acl.allowsBucket resource) role = [] /\
  ~ In resource (Memory.mget (Acl.store_after revoked) Acl.buckets.resources role).
Proof.
  intros Hpre. rewrite allow_single. cbn [Acl.store_after]. cbv zeta.
  set (st0 := Memory.run_add Acl.buckets.meta "roles" [role] st).
  set (st1 := Memory.run_add (Acl.allowsBucket resource) role [P] st0).
  set (st2 := Memory.run_add Acl.buckets.resources role [resource] st1).
  pose proof (allowsBucket_meta resource) as [Ham Hma].
  pose proof (allowsBucket_resources resource) as [Har Hra].
  assert (Hst2 : Memory.mget st2 (Acl.allowsBucket resource) role =
                 Memory.mget st1 (Acl.allowsBucket resource) role).
  { unfold st2. apply mget_run_add_other. now rewrite Hra. }
  assert (Hall : forall x, In x (Memory.mget st2 (Acl.allowsBucket resource) role) ->
                           In x [P]).
  { intros x. rewrite Hst2. unfold st1. rewrite In_mget_run_add.
    intros [H | H]; [exact H|]. left. symmetry. apply Hpre.
    unfold st0 in H. rewrite mget_run_add_other in H; [exact H | now rewrite Hma]. }
  split.
  { split.
    - rewrite Hst2. unfold st1. apply In_mget_run_add. left. now left.
    - unfold st2. apply In_mget_run_add. left. now left. }
  destruct (string_dec P "") as [-> | HP].
  - rewrite removeAllow_single_empty. cbv zeta.
    rewrite (mget_run_remove _ Acl.buckets.resources), Hra. cbn [andb].
    rewrite mget_run_del, String.eqb_refl, includes_refl. cbn [andb].
    cbn [Acl.outcome Acl.store_after]. split; [reflexivity|]. split.
    + rewrite (mget_run_remove _ Acl.buckets.resources), Hra. cbn [andb].
      rewrite (mget_run_remove _ Acl.buckets.resources), Hra. cbn [andb].
      now rewrite mget_run_del, String.eqb_refl, includes_refl.
    + rewrite mget_run_remove, !String.eqb_refl. cbn [andb].
      rewrite In_difference. intros [_ Hn]. apply Hn. now left.
  - rewrite (removeAllow_single test _ _ _ HP). cbv zeta.
    rewrite mget_run_remove, !String.eqb_refl. cbn [andb].
    rewrite (difference_nil _ _ Hall).
    cbn [Acl.outcome Acl.store_after]. split; [reflexivity|]. split.
    + rewrite (mget_run_remove _ Acl.buckets.resources), Hra. cbn [andb].
      rewrite mget_run_remove, !String.eqb_refl. cbn [andb].
      apply difference_nil. exact Hall.
    + rewrite mget_run_remove, !String.eqb_refl. cbn [andb].
      rewrite In_difference. intros [_ Hn]. apply Hn. now left.
Qed.

End GrantThenRevoke.

(** ** Parents *)

Section Parents.
Implicit Types (st : Memory.store).

Lemma addRoleParents_memory st child (parents : values) :
  Acl.addRoleParents child parents st =
  Acl.Reply (Ok tt)
    (Memory.run_add Acl.buckets.parents child (makeArray parents)
       (Memory.run_add Acl.buckets.meta "roles" [child] st)).
Proof. reflexivity. Qed.

Lemma removeRoleParents_named st child p :
  p <> "" ->
  Acl.removeRoleParents child (Some (Str p)) st =
  Acl.Reply (Ok tt) (Memory.run_remove Acl.buckets.parents child [p] st).
Proof.
  intros Hp. apply String.eqb_neq in Hp.
  unfold Acl.removeRoleParents. cbn [truthy]. rewrite Hp. reflexivity.
Qed.

Lemma removeRoleParents_all st child :
  Acl.removeRoleParents child None st =
  Acl.Reply (Ok tt) (Memory.run_del Acl.buckets.parents [child] st).
Proof. reflexivity. Qed.

Lemma uniq_acc_seen (seen arr : list string) :
  (forall x, In x arr -> In x seen) -> Lodash.uniq_acc seen arr = [].
Proof.
  revert seen. induction arr as [|y ys IH]; intros seen H; simpl; [reflexivity|].
  assert (Hy : includes y seen = true) by (apply includes_In, H; now left).
  rewrite Hy. apply IH. intros x Hx. apply H. now right.
Qed.


End Parents.

(** ** Users and roles *)

Section UsersRoles.
Variable test : string -> string -> bool.
Implicit Types (st : Memory.store).

Local Abbreviation R := (Memory.read test).

Lemma In_mget_run_add_iff x st bucket key vals bucket' key' :
  In x (Memory.mget (Memory.run_add bucket key vals st) bucket' key') <->
  (bucket = bucket' /\ key = key' /\ In x vals) \/ In x (Memory.mget st bucket' key').
Proof.
  destruct ((bucket =? bucket') && (key =? key')) eqn:E.
  - apply andb_true_iff in E. destruct E as [E1 E2].
    apply String.eqb_eq in E1, E2. subst. rewrite In_mget_run_add. tauto.
  - rewrite (mget_run_add_other _ _ _ _ _ _ E).
    apply andb_false_iff in E. split; [auto|].
    intros [(-> & -> & _) | H]; [|exact H].
    rewrite !String.eqb_refl in E. destruct E; discriminate.
Qed.

Lemma In_mget_run_remove_iff x st bucket key vals bucket' key' :
  In x (Memory.mget (Memory.run_remove bucket key vals st) bucket' key') <->
  In x (Memory.mget st bucket' key') /\
  ~ (bucket = bucket' /\ key = key' /\ In x vals).
Proof.
  rewrite mget_run_remove.
  destruct ((bucket =? bucket') && (key =? key')) eqn:E.
  - apply andb_true_iff in E. destruct E as [E1 E2].
    apply String.eqb_eq in E1, E2. subst. rewrite In_difference. tauto.
  - apply andb_false_iff in E. split; [|tauto].
    intros H. split; [exact H|]. intros (-> & -> & _).
    rewrite !String.eqb_refl in E. destruct E; discriminate.
Qed.

Lemma commit_app (t1 t2 : list Memory.op) st :
  Memory.commit (t1 ++ t2) st = Memory.commit t2 (Memory.commit t1 st).
Proof. apply fold_left_app. Qed.

(** A loop of [add] calls queues one closure per element. *)
Lemma for_each_add (l : list string) (t : list Memory.op) bucket (v : values) :
  Acl.for_each l (fun t k => add t bucket k v) t =
  Ok (t ++ map (fun k => Memory.OpAdd bucket k (makeArray v)) l).
Proof.
  unfold Acl.for_each. revert t.
  induction l as [|k l IH]; intros t; simpl.
  - now rewrite app_nil_r.
  - unfold Memory.madd at 2. rewrite IH, <- app_assoc. reflexivity.
Qed.

Lemma for_each_remove (l : list string) (t : list Memory.op) bucket (v : values) :
  Acl.for_each l (fun t k => remove t bucket k v) t =
  Ok (t ++ map (fun k => Memory.OpRemove bucket k (makeArray v)) l).
Proof.
  unfold Acl.for_each. revert t.
  induction l as [|k l IH]; intros t; simpl.
  - now rewrite app_nil_r.
  - unfold Memory.mremove at 2. rewrite IH, <- app_assoc. reflexivity.
Qed.

Lemma addUserRoles_memory st userId (roles : values) :
  Acl.addUserRoles userId roles st =
  Acl.Reply (Ok tt)
    (Memory.commit
       (map (fun role => Memory.OpAdd Acl.buckets.roles role [userId]) (makeArray roles))
       (Memory.run_add Acl.buckets.users userId (makeArray roles)
          (Memory.run_add Acl.buckets.meta "users" [userId] st))).
Proof.
  unfold Acl.addUserRoles. destruct roles as [role | l]; [reflexivity|].
  cbn [bind add begin Memory.write Memory.madd].
  rewrite for_each_add. cbn [Acl.finish end_ Memory.write makeArray app].
  reflexivity.
Qed.

Lemma removeUserRoles_memory st userId (roles : values) :
  Acl.removeUserRoles userId roles st =
  Acl.Reply (Ok tt)
    (Memory.commit
       (map (fun role => Memory.OpRemove Acl.buckets.roles role [userId]) (makeArray roles))
       (Memory.run_remove Acl.buckets.users userId (makeArray roles) st)).
Proof.
  unfold Acl.removeUserRoles. destruct roles as [role | l]; [reflexivity|].
  cbn [bind remove begin Memory.write Memory.mremove].
  rewrite for_each_remove. cbn [Acl.finish end_ Memory.write makeArray app].
  reflexivity.
Qed.

Lemma In_mget_adds x st bucket (v l : list string) bucket' key' :
  In x (Memory.mget
          (Memory.commit (map (fun k => Memory.OpAdd bucket k v) l) st) bucket' key') <->
  (bucket = bucket' /\ In key' l /\ In x v) \/ In x (Memory.mget st bucket' key').
Proof.
  revert st. induction l as [|k l IH]; intros st; simpl.
  - tauto.
  - unfold Memory.commit in IH. rewrite IH, In_mget_run_add_iff.
    split; [intros [H | [(-> & -> & H) | H]] | intros [(-> & [-> | H1] & H2) | H]]; tauto.
Qed.

Lemma In_mget_removes x st bucket (v l : list string) bucket' key' :
  In x (Memory.mget
          (Memory.commit (map (fun k => Memory.OpRemove bucket k v) l) st) bucket' key') <->
  In x (Memory.mget st bucket' key') /\
  ~ (bucket = bucket' /\ In key' l /\ In x v).
Proof.
  revert st. induction l as [|k l IH]; intros st; simpl.
  - tauto.
  - unfold Memory.commit in IH. rewrite IH, In_mget_run_remove_iff.
    split.
    + intros [[H1 H2] H3]. split; [exact H1|].
      intros (-> & [-> | H4] & H5); tauto.
    + intros [H1 H2]. split; [split; [exact H1|] |]; intros (-> & H3 & H4);
        apply H2; subst; auto.
Qed.

(** Assigning roles keeps the two buckets mirrored. *)
Lemma addUserRoles_mirror st userId (roles : values) :
  Spec.mirror st ->
  Spec.mirror (Acl.store_after (Acl.addUserRoles userId roles st)).
Proof.
  intros Hm u r. rewrite addUserRoles_memory. cbn [Acl.store_after].
  rewrite !In_mget_adds, !In_mget_run_add_iff, (Hm u r). simpl.
  unfold Acl.buckets.roles, Acl.buckets.users, Acl.buckets.meta.
  intuition (subst; try discriminate; auto).
Qed.

(** Unassigning roles keeps the two buckets mirrored. *)
Lemma removeUserRoles_mirror st userId (roles : values) :
  Spec.mirror st ->
  Spec.mirror (Acl.store_after (Acl.removeUserRoles (W := Memory.write) userId roles st)).
Proof.
  intros Hm u r. rewrite removeUserRoles_memory. cbn [Acl.store_after].
  rewrite !In_mget_removes, !In_mget_run_remove_iff, (Hm u r). simpl.
  unfold Acl.buckets.roles, Acl.buckets.users.
  intuition (subst; try discriminate; auto).
Qed.

End UsersRoles.

(** ** The reserved key of the MongoDB backend *)

Section ReservedKey.
Variable db : Type.
Variable exec : MongoDB.op -> db -> db.
Variables encodeURIComponent decodeURIComponent : string -> string.
Variable prefix : string.
Variables useSingle useRawCollectionNames : bool.

Local Abbreviation W :=
  (MongoDB.write exec encodeURIComponent decodeURIComponent prefix
                 useSingle useRawCollectionNames).
Local Abbreviation madd :=
  (MongoDB.add encodeURIComponent decodeURIComponent prefix
               useSingle useRawCollectionNames).
Local Abbreviation rejected := (@Throw unit "Key name 'key' is not allowed.").

Lemma mongodb_add_key (t : list MongoDB.op) bucket (vals : values) :
  madd t bucket "key" vals = Throw "Key name 'key' is not allowed.".
Proof. reflexivity. Qed.

Lemma mongodb_add_other (t : list MongoDB.op) bucket key (vals : values) :
  key <> "key" -> exists t', madd t bucket key vals = Ok (t ++ t').
Proof.
  intros H. apply String.eqb_neq in H. unfold MongoDB.add. rewrite H. eauto.
Qed.

Lemma for_each_thrown (T : Type) (step : T -> string -> result T) l m :
  fold_left (fun r x => t' <- r ;; step t' x) l (Throw m) = Throw m.
Proof. induction l as [|k l IH]; simpl; auto. Qed.

(** A loop of [add] calls keyed by the elements throws when ["key"] is one
    of them. *)
Lemma for_each_add_key (l : list string) (t : list MongoDB.op) bucket (vals : values) :
  In "key" l ->
  Acl.for_each l (fun t k => madd t bucket k vals) t =
  Throw "Key name 'key' is not allowed.".
Proof.
  unfold Acl.for_each. revert t.
  induction l as [|k l IH]; intros t Hin; [contradiction|]. simpl.
  destruct (string_dec k "key") as [-> | Hk].
  - rewrite mongodb_add_key. apply for_each_thrown.
  - destruct Hin as [Hin | Hin]; [contradiction|].
    destruct (mongodb_add_other t bucket vals Hk) as [t' ->]. now apply IH.
Qed.

(** Steps over a queued [add] whose key is not the reserved one. *)
Ltac queue_add :=
  match goal with
  | |- context [MongoDB.add ?e ?d ?p ?s ?r ?t ?b ?k ?v] =>
      let H := fresh in
      let t' := fresh "t" in
      destruct (@mongodb_add_other t b k v ltac:(assumption || discriminate))
        as [t' H];
      rewrite H; clear H; cbn [bind]
  end.


End ReservedKey.

(** ** The two paths of [allowedPermissions] *)

Section FoldAssign.
Variable A : Type.

Lemma prop_fold_assign (f : string -> A) (l : list string) (m0 : obj A) r :
  prop r (fold_left (fun m x => assign x (f x) m) l m0) =
  if includes r l then Some (f r) else prop r m0.
Proof.
  revert m0. induction l as [|x l IH]; intros m0; simpl; [reflexivity|].
  rewrite IH, prop_assign.
  destruct (String.eqb_spec x r) as [-> | Hne]; simpl.
  - destruct (includes r l); reflexivity.
  - reflexivity.
Qed.

Lemma fold_left_ext (B : Type) (f g : B -> string -> B) (l : list string) (b : B) :
  (forall b x, In x l -> f b x = g b x) -> fold_left f l b = fold_left g l b.
Proof.
  revert b. induction l as [|x l IH]; intros b H; simpl; [reflexivity|].
  rewrite H by now left. apply IH. intros b' y Hy. apply H. now right.
Qed.

(** A loop that fills a result object from computations that all return. *)
Lemma fold_assign_returns (g : string -> option A) (f : string -> A)
      (l : list string) (m0 : obj A) :
  (forall x, In x l -> g x = Some (f x)) ->
  fold_left
    (fun result x =>
       match result, g x with
       | Some result, Some v => Some (assign x v result)
       | _, _ => None
       end) l (Some m0) =
  Some (fold_left (fun m x => assign x (f x) m) l m0).
Proof.
  revert m0. induction l as [|x l IH]; intros m0 H; simpl; [reflexivity|].
  rewrite (H x) by now left. apply IH. intros y Hy. apply H. now right.
Qed.

End FoldAssign.

Section Unions.
Implicit Types (st : Memory.store) (b : obj (list string)).

Lemma In_pick_values v b ks seen :
  In v (Memory.pick_values seen b ks) <->
  exists k, In k ks /\ ~ In k seen /\ prop k b = Some v.
Proof.
  revert seen. induction ks as [|k rest IH]; intros seen; simpl.
  - split; [tauto | intros (k & [] & _)].
  - destruct (includes k seen) eqn:Es.
    + apply includes_In in Es. rewrite IH. split.
      * intros (k' & H1 & H2 & H3). eauto.
      * intros (k' & [<- | H1] & H2 & H3); [contradiction | eauto].
    + apply includes_not_In in Es. destruct (prop k b) as [w|] eqn:Ep.
      * simpl. rewrite IH. split.
        -- intros [<- | (k' & H1 & H2 & H3)]; [eauto|].
           exists k'. simpl in H2. tauto.
        -- intros (k' & [<- | H1] & H2 & H3); [left; congruence|].
           destruct (string_dec k k') as [<- | Hne]; [left; congruence|].
           right. exists k'. simpl. tauto.
      * rewrite IH. split.
        -- intros (k' & H1 & H2 & H3). eauto.
        -- intros (k' & [<- | H1] & H2 & H3); [congruence | eauto].
Qed.

Lemma In_unions_value x st ks bucket :
  In x (Memory.unions_value st ks bucket) <->
  exists b k v, prop bucket st = Some b /\ In k ks /\ prop k b = Some v /\ In x v.
Proof.
  unfold Memory.unions_value. destruct (prop bucket st) as [b|].
  - rewrite In_uniq. unfold Lodash.flatten. rewrite in_concat. split.
    + intros (v & Hv & Hx). apply In_pick_values in Hv.
      destruct Hv as (k & Hk & _ & Hp). exists b, k, v. auto.
    + intros (b' & k & v & [= <-] & Hk & Hp & Hx). exists v. split; [|exact Hx].
      apply In_pick_values. exists k. simpl. tauto.
  - split; [intros [] | intros (b & k & v & H & _); discriminate].
Qed.

Lemma munions_fold st buckets ks :
  Memory.munions st buckets ks =
  fold_left (fun m bucket => assign bucket (Memory.unions_value st ks bucket) m) buckets [].
Proof.
  unfold Memory.munions. apply fold_left_ext. intros m bucket _.
  unfold Memory.unions_value. destruct (prop bucket st); reflexivity.
Qed.

Lemma prop_munions st buckets ks bucket :
  prop bucket (Memory.munions st buckets ks) =
  if includes bucket buckets then Some (Memory.unions_value st ks bucket) else None.
Proof. rewrite munions_fold. apply prop_fold_assign. Qed.

(** When [union] reads the requested bucket itself, it returns what
    [unions] stores for it. *)
Lemma In_munion_unions_value test x st ks bucket :
  Memory.resolve test st bucket = bucket ->
  In x (Memory.munion test st bucket ks) <-> In x (Memory.unions_value st ks bucket).
Proof.
  intros H. rewrite In_munion, In_unions_value, H. reflexivity.
Qed.

End Unions.

Section BucketNames.

Lemma substring_all (s : string) : substring 0 (String.length s) s = s.
Proof. induction s as [|c s IH]; simpl; [reflexivity | now rewrite IH]. Qed.

Lemma keyFromAllowsBucket_allowsBucket resource :
  Acl.keyFromAllowsBucket (Acl.allowsBucket resource) = resource.
Proof.
  unfold Acl.keyFromAllowsBucket, Acl.allowsBucket. simpl.
  rewrite Nat.sub_0_r.
  replace (prefix "" resource) with true by (destruct resource; reflexivity).
  apply substring_all.
Qed.

Lemma allowsBucket_inj r1 r2 : Acl.allowsBucket r1 = Acl.allowsBucket r2 -> r1 = r2.
Proof. unfold Acl.allowsBucket. simpl. now intros [= ->]. Qed.

Lemma allowsBucket_eqb r1 r2 :
  (Acl.allowsBucket r1 =? Acl.allowsBucket r2) = (r1 =? r2).
Proof.
  destruct (String.eqb_spec r1 r2) as [-> | Hne].
  - apply String.eqb_refl.
  - apply String.eqb_neq. intros H. apply Hne. now apply allowsBucket_inj.
Qed.

Lemma includes_allowsBucket r (l : list string) :
  includes (Acl.allowsBucket r) (map Acl.allowsBucket l) = includes r l.
Proof.
  induction l as [|x l IH]; cbn [includes map]; [reflexivity|].
  now rewrite allowsBucket_eqb, IH.
Qed.

Lemma keys_prop (A : Type) k (o : obj A) : In k (keys o) -> exists v, prop k o = Some v.
Proof.
  induction o as [|[k' v'] rest IH]; simpl; [contradiction|].
  destruct (String.eqb_spec k' k) as [-> | Hne]; [eauto|].
  intros [H | H]; [contradiction | auto].
Qed.

(** The loop that renames the buckets of a [unions] response back to
    resources. *)
Lemma prop_renamed (response : obj (list string)) (l : list string)
      (m0 : obj (list string)) r :
  (forall b, In b l -> exists r', b = Acl.allowsBucket r') ->
  prop r
    (fold_left
       (fun result bucket =>
          match prop bucket response with
          | Some v => assign (Acl.keyFromAllowsBucket bucket) v result
          | None => result
          end) l m0) =
  if includes (Acl.allowsBucket r) l
  then match prop (Acl.allowsBucket r) response with
       | Some v => Some v
       | None => prop r m0
       end
  else prop r m0.
Proof.
  revert m0. induction l as [|x l IH]; intros m0 Hl; [reflexivity|].
  destruct (Hl x (or_introl eq_refl)) as [r' ->].
  cbn [fold_left includes]. rewrite IH by (intros b Hb; apply Hl; now right).
  rewrite allowsBucket_eqb, keyFromAllowsBucket_allowsBucket.
  destruct (String.eqb_spec r' r) as [-> | Hne]; cbn [orb].
  - destruct (prop (Acl.allowsBucket r) response) as [v|].
    + rewrite prop_assign_same. destruct (includes _ l); reflexivity.
    + destruct (includes _ l); reflexivity.
  - destruct (prop (Acl.allowsBucket r') response) as [v|]; [|reflexivity].
    rewrite prop_assign_other by exact Hne. reflexivity.
Qed.

Lemma prop_renamed_keys (response : obj (list string)) r :
  (forall b, In b (keys response) -> exists r', b = Acl.allowsBucket r') ->
  prop r
    (fold_left
       (fun result bucket =>
          match prop bucket response with
          | Some v => assign (Acl.keyFromAllowsBucket bucket) v result
          | None => result
          end) (keys response) []) =
  prop (Acl.allowsBucket r) response.
Proof.
  intros H. rewrite prop_renamed by exact H. cbn [prop].
  destruct (includes (Acl.allowsBucket r) (keys response)) eqn:E.
  - destruct (prop (Acl.allowsBucket r) response); reflexivity.
  - apply includes_not_In in E.
    destruct (prop (Acl.allowsBucket r) response) as [v|] eqn:Ep; [|reflexivity].
    elim E. eapply prop_Some_keys; eauto.
Qed.

End BucketNames.

Section Paths.
Variable test : string -> string -> bool.
Variable st : Memory.store.

Local Abbreviation R := (Memory.read test).
Local Abbreviation R0 := (Memory.read_basic test).
Local Abbreviation level := (Hierarchy.level test st).

Lemma resourcePermissions_unfold (B : BackendRead Memory.store) fuel roles resource :
  @Acl._resourcePermissions _ B fuel st roles resource =
  match roles with
  | [] => Some []
  | _ :: _ =>
      match @Acl._rolesParents _ B st roles with
      | [] => Some (union st (Acl.allowsBucket resource) roles)
      | (_ :: _) as parents =>
          match fuel with
          | O => None
          | Datatypes.S fuel' =>
              match @Acl._resourcePermissions _ B fuel' st parents resource with
              | Some more =>
                  Some (Lodash.union (union st (Acl.allowsBucket resource) roles) more)
              | None => None
              end
          end
      end
  end.
Proof. destruct fuel; reflexivity. Qed.

(** [_resourcePermissions] returns as soon as the fuel covers the levels,
    with the permissions granted at any level. *)
Lemma resourcePermissions_levels fuel roles resource :
  (exists n, n <= fuel /\ level (Datatypes.S n) roles = []) ->
  exists ps,
    @Acl._resourcePermissions _ R0 fuel st roles resource = Some ps /\
    forall x, In x ps <->
      exists k, In x (Memory.munion test st (Acl.allowsBucket resource) (level k roles)).
Proof.
  revert roles. induction fuel as [|f IH]; intros roles (n & Hn & Hl);
    rewrite resourcePermissions_unfold; destruct roles as [|r rs].
  1,3: exists []; split; [reflexivity|]; intros x; split; [intros [] |];
       intros [k H]; rewrite level_nil, munion_nil in H; exact H.
  - assert (n = 0) by lia. subst n. cbn [Hierarchy.level] in Hl.
    change (@Acl._rolesParents _ R0 st (r :: rs))
      with (@Acl._rolesParents _ R st (r :: rs)).
    rewrite Hl. eexists. split; [reflexivity|]. intros x. split.
    + intros H. now exists 0.
    + intros [[|k] H]; [exact H|]. cbn [Hierarchy.level] in H.
      rewrite Hl, level_nil, munion_nil in H. contradiction.
  - change (@Acl._rolesParents _ R0 st (r :: rs))
      with (@Acl._rolesParents _ R st (r :: rs)).
    destruct (@Acl._rolesParents _ R st (r :: rs)) as [|p ps] eqn:Ep.
    + eexists. split; [reflexivity|]. intros x. split.
      * intros H. now exists 0.
      * intros [[|k] H]; [exact H|]. cbn [Hierarchy.level] in H.
        rewrite Ep, level_nil, munion_nil in H. contradiction.
    + destruct n as [|n]; [cbn [Hierarchy.level] in Hl; congruence|].
      destruct (IH (p :: ps)) as (more & Hmore & Hin).
      { exists n. split; [lia|]. cbn [Hierarchy.level] in Hl.
        rewrite Ep in Hl. exact Hl. }
      rewrite Hmore. eexists. split; [reflexivity|]. intros x.
      rewrite In_union, Hin. split.
      * intros [H | [k H]]; [now exists 0|].
        exists (Datatypes.S k). cbn [Hierarchy.level]. now rewrite Ep.
      * intros [[|k] H]; [now left|]. right. exists k.
        cbn [Hierarchy.level] in H. now rewrite Ep in H.
Qed.

(** A [union] query over the role closure collects the levels. *)
Lemma munion_closure fuel roles res bucket x :
  @Acl._allRoles _ R fuel st roles = Some res ->
  In x (Memory.munion test st bucket res) <->
  exists k, In x (Memory.munion test st bucket (level k roles)).
Proof.
  intros Hres. rewrite In_munion_keys. split.
  - intros (r & Hr & Hx). apply (@allRoles_levels test st fuel roles res Hres) in Hr.
    destruct Hr as [k Hk]. exists k. apply In_munion_keys. eauto.
  - intros [k H]. apply In_munion_keys in H. destruct H as (r & Hr & Hx).
    exists r. split; [|exact Hx]. apply (@allRoles_levels test st fuel roles res Hres). eauto.
Qed.

End Paths.

Section PathsAgree.
Variable test : string -> string -> bool.
Variable st : Memory.store.

Local Abbreviation R := (Memory.read test).
Local Abbreviation R0 := (Memory.read_basic test).
Local Abbreviation level := (Hierarchy.level test st).

Lemma renamed_shape (f : string -> list string) (resources : list string) b :
  In b (keys (fold_left (fun m x => assign x (f x) m)
                        (map Acl.allowsBucket resources) [])) ->
  exists r', b = Acl.allowsBucket r'.
Proof.
  intros H. apply keys_prop in H. destruct H as [v Hv].
  rewrite prop_fold_assign in Hv.
  destruct (includes b (map Acl.allowsBucket resources)) eqn:E; [|discriminate].
  apply includes_In, in_map_iff in E. destruct E as (r' & <- & _). eauto.
Qed.

(** The result of the [unions] path, given the closure [roles] it queried. *)
Lemma prop_optimized (f : string -> list string) (resources : list string) r :
  let response := fold_left (fun m x => assign x (f x) m)
                            (map Acl.allowsBucket resources) [] in
  prop r
    (fold_left
       (fun result bucket =>
          match prop bucket response with
          | Some v => assign (Acl.keyFromAllowsBucket bucket) v result
          | None => result
          end) (keys response) []) =
  if includes r resources then Some (f (Acl.allowsBucket r)) else None.
Proof.
  intros response. rewrite prop_renamed_keys.
  - unfold response. now rewrite prop_fold_assign, includes_allowsBucket.
  - apply renamed_shape.
Qed.


End PathsAgree.

(* ------------------------------------------------------------------ *)
(** * Facts about the concrete stores *)

Module ExampleFacts.

Import Examples.

Local Abbreviation R := (Memory.read RegExp.test).

Example office_built :
  Acl.store_after (Acl.addUserRoles "joed" (Str "member")
    (Acl.store_after (Acl.addRoleParents "member" (Str "admin")
      (Acl.store_after (Acl.allow (Str "guest") (Str "blogs") (Str "view")
        (Acl.store_after (Acl.allow (Str "admin") (Str "blogs") (Str "*")
          Memory.clean)))))))
  = office.
Proof. reflexivity. Qed.

Example office_joed_edit :
  @Acl.isAllowed _ R 1 office "joed" "blogs" (Arr ["edit"; "delete"]) = Some true.
Proof. reflexivity. Qed.

Example office_joed_out_of_fuel :
  @Acl.isAllowed _ R 0 office "joed" "blogs" (Str "edit") = None.
Proof. reflexivity. Qed.

Example office_guest_edit :
  @Acl.areAnyRolesAllowed _ R 0 office (Str "guest") "blogs" (Str "edit") = Some false.
Proof. reflexivity. Qed.

Example office_closure :
  @Acl._allRoles _ R 1 office ["member"] = Some ["member"; "admin"].
Proof. reflexivity. Qed.

Lemma office_parents_bucket :
  prop (Memory.resolve RegExp.test office Acl.buckets.parents) office =
  Some [("member", ["admin"])].
Proof. vm_compute. reflexivity. Qed.

Lemma office_parent r p :
  Hierarchy.parent RegExp.test office r p -> r = "member" /\ p = "admin".
Proof.
  unfold Hierarchy.parent, Hierarchy.parentsOf, Acl._rolesParents.
  cbn [union Memory.read]. rewrite In_munion.
  intros (b & k & v & Hb & [<- | []] & Hk & Hp).
  rewrite office_parents_bucket in Hb. injection Hb as <-.
  cbn [prop] in Hk. destruct ("member" =? r) eqn:E; [|discriminate].
  apply String.eqb_eq in E. injection Hk as <-.
  destruct Hp as [<- | []]. auto.
Qed.

Lemma office_above r a :
  Hierarchy.above RegExp.test office r a -> r = "member" /\ a = "admin".
Proof.
  induction 1 as [r p Hp | r p a Hp _ IH].
  - now apply office_parent.
  - apply office_parent in Hp. destruct Hp as [_ ->].
    destruct IH as [IH _]. discriminate.
Qed.

Lemma office_acyclic : Hierarchy.acyclic RegExp.test office.
Proof.
  intros r H. apply office_above in H. destruct H as [-> H]. discriminate.
Qed.

End ExampleFacts.

(* ------------------------------------------------------------------ *)
(** * The properties at concrete inputs *)

Module Concrete.

Local Abbreviation R := (Memory.read RegExp.test).

(** [joed] is a [member], [member] has parent [admin], [admin] holds [*] on
    [blogs]. *)
Lemma wildcard_allows_descendants_witness :
  In "*" (Memory.mget Examples.office (Acl.allowsBucket "blogs") "admin") /\
  In "member" (Acl.userRoles (R := R) Examples.office "joed") /\
  Hierarchy.stored_ancestor Examples.office "member" "admin" /\
  exists fuel0, forall fuel, fuel0 <= fuel ->
    @Acl.isAllowed _ R fuel Examples.office "joed" "blogs" (Arr ["edit"; "delete"])
    = Some true.
Proof.
  assert (H1 : In "*" (Memory.mget Examples.office (Acl.allowsBucket "blogs") "admin"))
    by (simpl; auto).
  assert (H2 : In "member" (Acl.userRoles (R := R) Examples.office "joed"))
    by (simpl; auto).
  assert (H3 : Hierarchy.stored_ancestor Examples.office "member" "admin").
  { apply Hierarchy.stored_ancestor_step with (p := "admin").
    - unfold Hierarchy.stored_parent. simpl. auto.
    - apply Hierarchy.stored_ancestor_self. }
  split; [exact H1|]. split; [exact H2|]. split; [exact H3|].
  exact (@wildcard_allows_descendants RegExp.test Examples.office "blogs" "admin"
           "member" "joed" (Arr ["edit"; "delete"]) H1 H2 H3).
Defined.



(** Granting and revoking [view] on [blogs] for [guest], from the empty
    store. *)
Lemma allow_then_removeAllow_witness :
  (forall x, In x (Memory.mget Memory.clean (Acl.allowsBucket "blogs") "guest") ->
             x = "view") /\
  let granted :=
    Acl.store_after (Acl.allow (Str "guest") (Str "blogs") (Str "view") Memory.clean) in
  let revoked :=
    Acl.removeAllow (R := R) "guest" (Str "blogs") (Some (Str "view")) granted in
  (In "view" (Memory.mget granted (Acl.allowsBucket "blogs") "guest") /\
   In "blogs" (Memory.mget granted Acl.buckets.resources "guest")) /\
  Acl.outcome revoked = Ok tt /\
  Memory.mget (Acl.store_after revoked) (Acl.allowsBucket "blogs") "guest" = [] /\
  ~ In "blogs" (Memory.mget (Acl.store_after revoked) Acl.buckets.resources "guest").
Proof.
  assert (H : forall x,
             In x (Memory.mget Memory.clean (Acl.allowsBucket "blogs") "guest") ->
             x = "view") by (simpl; intros x []).
  split; [exact H|].
  exact (@allow_then_removeAllow RegExp.test Memory.clean "guest" "blogs" "view" H).
Defined.


Example logs_built :
  Acl.store_after (Acl.addUserRoles "joed" (Str "guest")
    (Acl.store_after (Acl.allow (Str "guest") (Str ".logs") (Str "view")
      Memory.clean)))
  = Examples.logs.
Proof. reflexivity. Qed.

Lemma logs_acyclic : Hierarchy.acyclic RegExp.test Examples.logs.
Proof.
  assert (Hp : forall r p, ~ Hierarchy.parent RegExp.test Examples.logs r p).
  { intros r p. unfold Hierarchy.parent, Hierarchy.parentsOf, Acl._rolesParents.
    cbn [union Memory.read]. rewrite In_munion.
    intros (b & _ & _ & Hb & _).
    assert (E : prop (Memory.resolve RegExp.test Examples.logs Acl.buckets.parents)
                     Examples.logs = None)
      by (vm_compute; reflexivity).
    congruence. }
  intros r H. inversion H; subst; eapply Hp; eauto.
Qed.

(** C4.  On the store [logs], whose hierarchy has no parent edge at all,
    the two paths of [allowedPermissions("joed", "blogs")] differ for every
    fuel.  The bucket [allows_blogs] does not exist; [union] then reads the
    bucket [allows_.logs], whose name matches [allows_blogs] as a regular
    expression, so the path through [_resourcePermissions] answers [view];
    [unions] has no such fallback, so the path [allowedPermissions] takes
    with this backend answers no permission. *)
Theorem allowedPermissions_paths_differ :
  Hierarchy.acyclic RegExp.test Examples.logs /\
  Memory.resolve RegExp.test Examples.logs (Acl.allowsBucket "blogs") = "allows_.logs" /\
  (forall fuel,
      @Acl.allowedPermissions _ (Memory.read_basic RegExp.test) fuel Examples.logs
                              "joed" (Str "blogs")
      = Some [("blogs", ["view"])]) /\
  (forall fuel,
      @Acl.allowedPermissions _ (Memory.read RegExp.test) fuel Examples.logs
                              "joed" (Str "blogs")
      = Some [("blogs", [])]) /\
  ~ Spec.same_map [("blogs", ["view"])] [("blogs", [])].
Proof.
  split; [exact logs_acyclic|].
  split; [vm_compute; reflexivity|].
  split; [intros [|fuel]; vm_compute; reflexivity|].
  split; [intros [|fuel]; vm_compute; reflexivity|].
  intros H. specialize (H "blogs"). cbn in H.
  destruct (proj1 (H "view")). now left.
Qed.

Lemma office_mirror : Spec.mirror Examples.office.
Proof.
  intros u r. unfold Memory.mget.
  change (prop Acl.buckets.users Examples.office) with (Some [("joed", ["member"])]).
  change (prop Acl.buckets.roles Examples.office) with (Some [("member", ["joed"])]).
  cbn [prop].
  destruct (String.eqb_spec "joed" u); destruct (String.eqb_spec "member" r);
    cbn [In prop]; tauto.
Qed.

(** C5.  On the store [office], where the users bucket and the roles bucket
    mirror each other, [removeRole("member")] settles normally and deletes
    the member set of [member], but [joed] still has [member] among its
    roles: the two buckets are no longer mirror images. *)
Theorem removeRole_breaks_mirror :
  Spec.mirror Examples.office /\
  let after := Acl.removeRole (R := R) "member" Examples.office in
  Acl.outcome after = Ok tt /\
  Acl.userRoles (R := R) (Acl.store_after after) "joed" = ["member"] /\
  Acl.roleUsers (R := R) (Acl.store_after after) "member" = [] /\
  ~ Spec.mirror (Acl.store_after after).
Proof.
  split; [exact office_mirror|]. cbv zeta.
  assert (Hu : Acl.userRoles (R := R)
                 (Acl.store_after (Acl.removeRole (R := R) "member" Examples.office))
                 "joed" = ["member"]) by (vm_compute; reflexivity).
  assert (Hr : Acl.roleUsers (R := R)
                 (Acl.store_after (Acl.removeRole (R := R) "member" Examples.office))
                 "member" = []) by (vm_compute; reflexivity).
  split; [vm_compute; reflexivity|]. split; [exact Hu|]. split; [exact Hr|].
  intros Hm. specialize (Hm "joed" "member").
  unfold Acl.userRoles, Acl.roleUsers in Hu, Hr. cbn [get Memory.read] in Hu, Hr.
  rewrite Hu, Hr in Hm. apply Hm. now left.
Qed.





End Concrete.

(* ------------------------------------------------------------------ *)
(** * Further properties of the engine and of the backends *)

(** ** What a committed transaction does to the stored arrays *)

Section Transactions.
Implicit Types (st : Memory.store) (t : list Memory.op).

Lemma In_mget_run x (o : Memory.op) st bucket key :
  In x (Memory.mget (Memory.run o st) bucket key) <->
  Memory.puts o bucket key x \/
  (In x (Memory.mget st bucket key) /\ ~ Memory.kills o bucket key x).
Proof.
  destruct o as [b k vals | b ks | b k vals]; cbn [Memory.run Memory.puts Memory.kills].
  - destruct (String.eqb_spec b bucket) as [-> | Hb].
    + destruct (String.eqb_spec k key) as [-> | Hk].
      * rewrite In_mget_run_add. tauto.
      * rewrite mget_run_add_other.
        -- tauto.
        -- apply andb_false_iff. right. now apply String.eqb_neq.
    + rewrite mget_run_add_other.
      * tauto.
      * apply andb_false_iff. left. now apply String.eqb_neq.
  - rewrite mget_run_del.
    destruct (String.eqb_spec b bucket) as [-> | Hne]; cbn [andb].
    + destruct (includes key ks) eqn:E.
      * apply includes_In in E. simpl. split; [tauto|].
        intros [[] | [_ Hn]]. apply Hn. auto.
      * apply includes_not_In in E. tauto.
    + tauto.
  - rewrite mget_run_remove.
    destruct (String.eqb_spec b bucket) as [-> | Hb]; cbn [andb].
    + destruct (String.eqb_spec k key) as [-> | Hk].
      * rewrite In_difference. tauto.
      * tauto.
    + tauto.
Qed.

(** A transaction of [add] closures only accumulates. *)
Lemma commit_adds x t st bucket key :
  forallb Memory.is_add t = true ->
  In x (Memory.mget (Memory.commit t st) bucket key) <->
  (exists o, In o t /\ Memory.puts o bucket key x) \/
  In x (Memory.mget st bucket key).
Proof.
  revert st. induction t as [|o t IH]; intros st Hall.
  - simpl. split; [auto | intros [(o & [] & _) | H]; exact H].
  - cbn [forallb] in Hall. apply andb_true_iff in Hall. destruct Hall as [Ho Hall].
    change (Memory.commit (o :: t) st) with (Memory.commit t (Memory.run o st)).
    rewrite (IH _ Hall), In_mget_run.
    assert (Hk : ~ Memory.kills o bucket key x) by (destruct o; simpl; tauto || discriminate).
    split.
    + intros [(o' & Ho' & Hp) | [Hp | [H _]]].
      * left. exists o'. split; [now right | exact Hp].
      * left. exists o. split; [now left | exact Hp].
      * now right.
    + intros [(o' & [<- | Ho'] & Hp) | H].
      * right. now left.
      * left. eauto.
      * right. right. tauto.
Qed.

(** A transaction of [del] and [remove] closures only takes away. *)
Lemma commit_removals x t st bucket key :
  forallb Memory.is_removal t = true ->
  In x (Memory.mget (Memory.commit t st) bucket key) <->
  In x (Memory.mget st bucket key) /\
  ~ exists o, In o t /\ Memory.kills o bucket key x.
Proof.
  revert st. induction t as [|o t IH]; intros st Hall.
  - simpl. split; [intros H; split; [exact H | intros (o & [] & _)] | tauto].
  - cbn [forallb] in Hall. apply andb_true_iff in Hall. destruct Hall as [Ho Hall].
    change (Memory.commit (o :: t) st) with (Memory.commit t (Memory.run o st)).
    rewrite (IH _ Hall), In_mget_run.
    assert (Hp : ~ Memory.puts o bucket key x) by (destruct o; simpl; tauto || discriminate).
    split.
    + intros [[Hp' | [H Hk]] Hn]; [contradiction|].
      split; [exact H|]. intros (o' & [<- | Ho'] & Hk'); [contradiction|].
      apply Hn. eauto.
    + intros [H Hn]. split.
      * right. split; [exact H|]. intros Hk. apply Hn. exists o. split; [now left | exact Hk].
      * intros (o' & Ho' & Hk). apply Hn. exists o'. split; [now right | exact Hk].
Qed.

(** A loop whose step queues closures queues them all, in order. *)
Lemma for_each_queue (step : list Memory.op -> string -> result (list Memory.op))
      (g : string -> list Memory.op) (l : list string) t :
  (forall t x, In x l -> step t x = Ok (t ++ g x)) ->
  Acl.for_each l step t = Ok (t ++ flat_map g l).
Proof.
  unfold Acl.for_each. revert t.
  induction l as [|x l IH]; intros t H; simpl.
  - now rewrite app_nil_r.
  - rewrite H by now left. rewrite IH by (intros t' y Hy; apply H; now right).
    now rewrite <- app_assoc.
Qed.

End Transactions.

(** ** The transactions the engine queues on the memory backend *)

Section EngineTransactions.
Implicit Types (st : Memory.store).

Lemma commit_other_bucket (t : list Memory.op) st bucket key :
  (forall o, In o t -> Memory.op_bucket o <> bucket) ->
  forall x, In x (Memory.mget (Memory.commit t st) bucket key) <->
            In x (Memory.mget st bucket key).
Proof.
  revert st. induction t as [|o t IH]; intros st H x; [reflexivity|].
  change (Memory.commit (o :: t) st) with (Memory.commit t (Memory.run o st)).
  rewrite IH by (intros o' Ho'; apply H; now right).
  rewrite In_mget_run.
  assert (Hb : Memory.op_bucket o <> bucket) by (apply H; now left).
  destruct o; simpl in *; tauto.
Qed.

Lemma allow_memory st (roles resources permissions : values) :
  Acl.allow roles resources permissions st =
  Acl.Reply (Ok tt)
    (Memory.commit
       ([Memory.OpAdd Acl.buckets.meta "roles" (makeArray roles)]
        ++ flat_map
             (fun resource =>
                flat_map
                  (fun role =>
                     [Memory.OpAdd (Acl.allowsBucket resource) role
                                   (makeArray permissions)])
                  (makeArray roles))
             (makeArray resources)
        ++ flat_map
             (fun role =>
                [Memory.OpAdd Acl.buckets.resources role (makeArray resources)])
             (makeArray roles))
       st).
Proof.
  unfold Acl.allow. cbn [bind add begin Memory.write app makeArray].
  unfold Memory.madd at 1. cbn [bind app makeArray].
  rewrite (for_each_queue
             (fun t resource =>
                Acl.for_each (makeArray roles)
                  (fun t role =>
                     Memory.madd t (Acl.allowsBucket resource) role permissions) t)
             (fun resource =>
                flat_map
                  (fun role =>
                     [Memory.OpAdd (Acl.allowsBucket resource) role
                                   (makeArray permissions)])
                  (makeArray roles))).
  - cbn [bind]. rewrite (for_each_queue _
                  (fun role =>
                     [Memory.OpAdd Acl.buckets.resources role (makeArray resources)])).
    + cbn [Acl.finish end_ Memory.write]. now rewrite <- app_assoc.
    + intros t x _. reflexivity.
  - intros t resource _. apply for_each_queue. intros t' role _. reflexivity.
Qed.

Lemma removeRole_memory (B : BackendRead Memory.store) st role :
  Acl.removeRole (R := B) role st =
  Acl.Reply (Ok tt)
    (Memory.commit
       (flat_map (fun resource => [Memory.OpDel (Acl.allowsBucket resource) [role]])
                 (get st Acl.buckets.resources role)
        ++ [Memory.OpDel Acl.buckets.resources [role];
            Memory.OpDel Acl.buckets.parents [role];
            Memory.OpDel Acl.buckets.roles [role];
            Memory.OpRemove Acl.buckets.meta "roles" [role]])
       st).
Proof.
  unfold Acl.removeRole. cbn [del remove begin Memory.write].
  rewrite (for_each_queue _
             (fun resource => [Memory.OpDel (Acl.allowsBucket resource) [role]])).
  - cbn [bind Memory.mdel makeArray app]. unfold Memory.mremove.
    cbn [Acl.finish end_ Memory.write makeArray]. now rewrite <- !app_assoc.
  - intros t x _. reflexivity.
Qed.

Lemma removeResource_memory (B : BackendRead Memory.store) st resource :
  Acl.removeResource (R := B) resource st =
  Acl.Reply (Ok tt)
    (Memory.commit
       (Memory.OpDel (Acl.allowsBucket resource) (get st Acl.buckets.meta "roles")
        :: flat_map
             (fun role => [Memory.OpRemove Acl.buckets.resources role [resource]])
             (get st Acl.buckets.meta "roles"))
       st).
Proof.
  unfold Acl.removeResource.
  cbn [bind del remove begin Memory.write Memory.mdel makeArray app].
  rewrite (for_each_queue _
             (fun role => [Memory.OpRemove Acl.buckets.resources role [resource]])).
  - reflexivity.
  - intros t x _. reflexivity.
Qed.

End EngineTransactions.

(** ** Grants *)

Section Grants.
Implicit Types (st : Memory.store).

Lemma forallb_flat_map (A B : Type) (p : B -> bool) (g : A -> list B) (l : list A) :
  (forall a, forallb p (g a) = true) -> forallb p (flat_map g l) = true.
Proof.
  intros H. induction l as [|a l IH]; simpl; [reflexivity|].
  now rewrite forallb_app, H, IH.
Qed.

Lemma allow_ops_add (roles resources permissions : list string) :
  forallb Memory.is_add
    ([Memory.OpAdd Acl.buckets.meta "roles" roles]
     ++ flat_map
          (fun resource =>
             flat_map
               (fun role => [Memory.OpAdd (Acl.allowsBucket resource) role permissions])
               roles)
          resources
     ++ flat_map (fun role => [Memory.OpAdd Acl.buckets.resources role resources]) roles)
  = true.
Proof.
  rewrite !forallb_app. cbn [forallb Memory.is_add andb].
  rewrite !forallb_flat_map; [reflexivity | reflexivity |].
  intros resource. now apply forallb_flat_map.
Qed.

Lemma allowsBucket_not_fixed resource :
  Acl.allowsBucket resource <> Acl.buckets.meta /\
  Acl.allowsBucket resource <> Acl.buckets.parents /\
  Acl.allowsBucket resource <> Acl.buckets.permissions /\
  Acl.allowsBucket resource <> Acl.buckets.resources /\
  Acl.allowsBucket resource <> Acl.buckets.roles /\
  Acl.allowsBucket resource <> Acl.buckets.users.
Proof. repeat split; discriminate. Qed.

(** X1. After [allow(roles, resources, permissions)] on the memory backend
    a permission is stored for a pair (role, resource) exactly when it was
    stored before or the call names the role, the resource and the
    permission; the role lists the resource exactly when it did before or
    the call names both; and the known roles are the old ones and the roles
    of the call. *)
Theorem allow_grants_product st (roles resources permissions : values)
        (role resource p : string) :
  let after := Acl.allow roles resources permissions st in
  Acl.outcome after = Ok tt /\
  (In p (Memory.mget (Acl.store_after after) (Acl.allowsBucket resource) role) <->
   (In role (makeArray roles) /\ In resource (makeArray resources) /\
    In p (makeArray permissions)) \/
   In p (Memory.mget st (Acl.allowsBucket resource) role)) /\
  (In resource (Memory.mget (Acl.store_after after) Acl.buckets.resources role) <->
   (In role (makeArray roles) /\ In resource (makeArray resources)) \/
   In resource (Memory.mget st Acl.buckets.resources role)) /\
  (In role (Memory.mget (Acl.store_after after) Acl.buckets.meta "roles") <->
   In role (makeArray roles) \/ In role (Memory.mget st Acl.buckets.meta "roles")).
Proof.
  cbv zeta. rewrite allow_memory. cbn [Acl.outcome Acl.store_after].
  split; [reflexivity|].
  pose proof (allowsBucket_not_fixed resource) as (Hm & _ & _ & Hr & _ & _).
  rewrite !commit_adds by apply allow_ops_add.
  split; [|split].
  - split.
    + intros [(o & Ho & Hp) | H]; [|now right]. left.
      rewrite !in_app_iff in Ho. destruct Ho as [[<- | []] | [Ho | Ho]].
      * destruct Hp as [Hp _]. symmetry in Hp. contradiction.
      * apply in_flat_map in Ho. destruct Ho as (resource' & Hres & Ho).
        apply in_flat_map in Ho. destruct Ho as (role' & Hrole & [<- | []]).
        destruct Hp as (Hb & <- & Hp). apply allowsBucket_inj in Hb. subst. auto.
      * apply in_flat_map in Ho. destruct Ho as (role' & Hrole & [<- | []]).
        destruct Hp as [Hp _]. symmetry in Hp. contradiction.
    + intros [(Hrole & Hres & Hp) | H]; [|now right]. left.
      exists (Memory.OpAdd (Acl.allowsBucket resource) role (makeArray permissions)).
      split; [|simpl; auto].
      rewrite !in_app_iff. right. left.
      apply in_flat_map. exists resource. split; [exact Hres|].
      apply in_flat_map. exists role. split; [exact Hrole | now left].
  - split.
    + intros [(o & Ho & Hp) | H]; [|now right]. left.
      rewrite !in_app_iff in Ho. destruct Ho as [[<- | []] | [Ho | Ho]].
      * destruct Hp as [Hp _]. discriminate.
      * apply in_flat_map in Ho. destruct Ho as (resource' & Hres & Ho).
        apply in_flat_map in Ho. destruct Ho as (role' & Hrole & [<- | []]).
        destruct Hp as [Hp _]. destruct (allowsBucket_not_fixed resource')
          as (_ & _ & _ & Hr' & _). contradiction.
      * apply in_flat_map in Ho. destruct Ho as (role' & Hrole & [<- | []]).
        destruct Hp as (_ & <- & Hp). auto.
    + intros [(Hrole & Hres) | H]; [|now right]. left.
      exists (Memory.OpAdd Acl.buckets.resources role (makeArray resources)).
      split; [|simpl; auto].
      rewrite !in_app_iff. right. right.
      apply in_flat_map. exists role. split; [exact Hrole | now left].
  - split.
    + intros [(o & Ho & Hp) | H]; [|now right]. left.
      rewrite !in_app_iff in Ho. destruct Ho as [[<- | []] | [Ho | Ho]].
      * destruct Hp as (_ & _ & Hp). exact Hp.
      * apply in_flat_map in Ho. destruct Ho as (resource' & Hres & Ho).
        apply in_flat_map in Ho. destruct Ho as (role' & Hrole & [<- | []]).
        destruct Hp as [Hp _]. destruct (allowsBucket_not_fixed resource')
          as (Hm' & _). contradiction.
      * apply in_flat_map in Ho. destruct Ho as (role' & Hrole & [<- | []]).
        destruct Hp as [Hp _]. discriminate.
    + intros [Hrole | H]; [|now right]. left.
      exists (Memory.OpAdd Acl.buckets.meta "roles" (makeArray roles)).
      split; [|simpl; auto]. rewrite !in_app_iff. left. now left.
Qed.

End Grants.

(** ** Revocations *)

Section Revocations.
Variable test : string -> string -> bool.
Implicit Types (st : Memory.store).

Local Abbreviation R := (Memory.read test).

(** The closures of the first transaction of [removePermissions], for one
    resource. *)
Lemma removePermissions_memory st role (resources : list string)
      (permissions : option values) :
  let first resource :=
    match permissions with
    | Some ps =>
        if truthy permissions
        then [Memory.OpRemove (Acl.allowsBucket resource) role (makeArray ps)]
        else [Memory.OpDel (Acl.allowsBucket resource) [role];
              Memory.OpRemove Acl.buckets.resources role [resource]]
    | None => [Memory.OpDel (Acl.allowsBucket resource) [role];
               Memory.OpRemove Acl.buckets.resources role [resource]]
    end in
  let st1 := Memory.commit (flat_map first resources) st in
  let second resource :=
    match Memory.mget st1 (Acl.allowsBucket resource) role with
    | [] => [Memory.OpRemove Acl.buckets.resources role [resource]]
    | _ :: _ => []
    end in
  Acl.removePermissions (R := R) role resources permissions st =
  Acl.Reply (Ok tt) (Memory.commit (flat_map second resources) st1).
Proof.
  intros first st1 second. unfold Acl.removePermissions.
  cbn [begin del remove Memory.write].
  rewrite (for_each_queue _ first).
  - cbn [Acl.finish Acl.outcome Acl.store_after end_ Memory.write app].
    fold st1. rewrite (for_each_queue _ second).
    + reflexivity.
    + intros t resource _. unfold second. cbn [get Memory.read].
      destruct (Memory.mget st1 (Acl.allowsBucket resource) role).
      * reflexivity.
      * now rewrite app_nil_r.
  - intros t resource _. unfold first.
    destruct permissions as [ps|]; [destruct (truthy (Some ps))|];
      unfold Memory.mremove, Memory.mdel; cbn [bind makeArray];
      rewrite <- ?app_assoc; reflexivity.
Qed.

End Revocations.

(** ** What additions keep and removals leave out *)

Section Monotone.
Variable test : string -> string -> bool.
Implicit Types (st : Memory.store).

Local Abbreviation R := (Memory.read test).

Lemma adds_incl (t : list Memory.op) st bucket key :
  forallb Memory.is_add t = true ->
  incl (Memory.mget st bucket key) (Memory.mget (Memory.commit t st) bucket key).
Proof. intros H x Hx. apply commit_adds; auto. Qed.

Lemma removals_incl (t : list Memory.op) st bucket key :
  forallb Memory.is_removal t = true ->
  incl (Memory.mget (Memory.commit t st) bucket key) (Memory.mget st bucket key).
Proof. intros H x Hx. apply commit_removals in Hx; tauto. Qed.

Lemma forallb_map_const (A : Type) (p : Memory.op -> bool) (f : A -> Memory.op)
      (l : list A) :
  (forall a, p (f a) = true) -> forallb p (map f l) = true.
Proof. intros H. induction l as [|a l IH]; simpl; [reflexivity | now rewrite H, IH]. Qed.

(** X2. [addUserRoles], [addRoleParents] and [allow] never take anything
    out of the memory backend: every value stored under any bucket and key
    before the call is still stored there after it. *)
Theorem additions_lose_nothing st bucket key :
  (forall userId roles,
      incl (Memory.mget st bucket key)
           (Memory.mget (Acl.store_after (Acl.addUserRoles userId roles st))
                        bucket key)) /\
  (forall role parents,
      incl (Memory.mget st bucket key)
           (Memory.mget (Acl.store_after (Acl.addRoleParents role parents st))
                        bucket key)) /\
  (forall roles resources permissions,
      incl (Memory.mget st bucket key)
           (Memory.mget (Acl.store_after (Acl.allow roles resources permissions st))
                        bucket key)).
Proof.
  split; [|split].
  - intros userId roles. rewrite addUserRoles_memory. cbn [Acl.store_after].
    change (Memory.commit ?t (Memory.run_add ?b1 ?k1 ?v1 (Memory.run_add ?b0 ?k0 ?v0 st)))
      with (Memory.commit (Memory.OpAdd b0 k0 v0 :: Memory.OpAdd b1 k1 v1 :: t) st).
    apply adds_incl. cbn [forallb Memory.is_add andb].
    now apply forallb_map_const.
  - intros role parents. rewrite addRoleParents_memory. cbn [Acl.store_after].
    change (Memory.run_add ?b1 ?k1 ?v1 (Memory.run_add ?b0 ?k0 ?v0 st))
      with (Memory.commit [Memory.OpAdd b0 k0 v0; Memory.OpAdd b1 k1 v1] st).
    now apply adds_incl.
  - intros roles resources permissions. rewrite allow_memory.
    cbn [Acl.store_after]. apply adds_incl, allow_ops_add.
Qed.

(** X3. [removeUserRoles], [removeRoleParents], [removeRole],
    [removeResource] and [removeAllow] never put anything into the memory
    backend: every value stored under any bucket and key after the call was
    stored there before it. *)
Theorem removals_add_nothing st bucket key :
  (forall userId roles,
      incl (Memory.mget (Acl.store_after (Acl.removeUserRoles userId roles st))
                        bucket key)
           (Memory.mget st bucket key)) /\
  (forall role parents,
      incl (Memory.mget (Acl.store_after (Acl.removeRoleParents role parents st))
                        bucket key)
           (Memory.mget st bucket key)) /\
  (forall role,
      incl (Memory.mget (Acl.store_after (Acl.removeRole (R := R) role st)) bucket key)
           (Memory.mget st bucket key)) /\
  (forall resource,
      incl (Memory.mget (Acl.store_after (Acl.removeResource (R := R) resource st))
                        bucket key)
           (Memory.mget st bucket key)) /\
  (forall role resources permissions,
      incl (Memory.mget
              (Acl.store_after (Acl.removeAllow (R := R) role resources permissions st))
              bucket key)
           (Memory.mget st bucket key)).
Proof.
  split; [|split; [|split; [|split]]].
  - intros userId roles. rewrite removeUserRoles_memory. cbn [Acl.store_after].
    change (Memory.commit ?t (Memory.run_remove ?b0 ?k0 ?v0 st))
      with (Memory.commit (Memory.OpRemove b0 k0 v0 :: t) st).
    apply removals_incl. cbn [forallb Memory.is_removal andb].
    now apply forallb_map_const.
  - intros role parents. unfold Acl.removeRoleParents.
    destruct parents as [ps|]; [destruct (truthy (Some ps))|];
      cbn [Acl.finish Acl.store_after remove del begin Memory.write
           Memory.mremove Memory.mdel end_ app];
      now apply removals_incl.
  - intros role. rewrite removeRole_memory. cbn [Acl.store_after].
    apply removals_incl. rewrite forallb_app, forallb_flat_map; reflexivity.
  - intros resource. rewrite removeResource_memory. cbn [Acl.store_after].
    apply removals_incl. cbn [forallb Memory.is_removal andb].
    now apply forallb_flat_map.
  - intros role resources permissions. unfold Acl.removeAllow.
    rewrite removePermissions_memory. cbn [Acl.store_after].
    eapply incl_tran; apply removals_incl; apply forallb_flat_map; intros resource.
    + now destruct (Memory.mget _ _ _).
    + destruct permissions as [[s | l]|]; cbn [truthy]; try reflexivity.
      destruct (s =? "") eqn:E; cbn [negb truthy]; rewrite ?E; reflexivity.
Qed.

End Monotone.

(** ** Repeating an addition *)

Section Idempotence.
Implicit Types (st : Memory.store).

Lemma commit_adds_twice (t : list Memory.op) st bucket key x :
  forallb Memory.is_add t = true ->
  In x (Memory.mget (Memory.commit t (Memory.commit t st)) bucket key) <->
  In x (Memory.mget (Memory.commit t st) bucket key).
Proof. intros H. rewrite !commit_adds by exact H. tauto. Qed.

(** X4. On the memory backend a second identical [addUserRoles],
    [addRoleParents] or [allow] changes no stored set: under every bucket
    and key the same values are stored after the second call as after the
    first. *)
Theorem additions_idempotent st bucket key x :
  (forall userId roles,
      let once := Acl.store_after (Acl.addUserRoles userId roles st) in
      In x (Memory.mget (Acl.store_after (Acl.addUserRoles userId roles once))
                        bucket key) <->
      In x (Memory.mget once bucket key)) /\
  (forall role parents,
      let once := Acl.store_after (Acl.addRoleParents role parents st) in
      In x (Memory.mget (Acl.store_after (Acl.addRoleParents role parents once))
                        bucket key) <->
      In x (Memory.mget once bucket key)) /\
  (forall roles resources permissions,
      let once := Acl.store_after (Acl.allow roles resources permissions st) in
      In x (Memory.mget (Acl.store_after (Acl.allow roles resources permissions once))
                        bucket key) <->
      In x (Memory.mget once bucket key)).
Proof.
  split; [|split].
  - intros userId roles once. subst once. rewrite !addUserRoles_memory.
    cbn [Acl.store_after].
    set (t := Memory.OpAdd Acl.buckets.meta "users" [userId]
              :: Memory.OpAdd Acl.buckets.users userId (makeArray roles)
              :: map (fun role => Memory.OpAdd Acl.buckets.roles role [userId])
                     (makeArray roles)).
    change (In x (Memory.mget (Memory.commit t (Memory.commit t st)) bucket key) <->
            In x (Memory.mget (Memory.commit t st) bucket key)).
    apply commit_adds_twice. subst t. cbn [forallb Memory.is_add andb].
    now apply forallb_map_const.
  - intros role parents once. subst once. rewrite !addRoleParents_memory.
    cbn [Acl.store_after].
    set (t := [Memory.OpAdd Acl.buckets.meta "roles" [role];
               Memory.OpAdd Acl.buckets.parents role (makeArray parents)]).
    change (In x (Memory.mget (Memory.commit t (Memory.commit t st)) bucket key) <->
            In x (Memory.mget (Memory.commit t st) bucket key)).
    now apply commit_adds_twice.
  - intros roles resources permissions once. subst once. rewrite !allow_memory.
    cbn [Acl.store_after]. apply commit_adds_twice, allow_ops_add.
Qed.

End Idempotence.

(** ** Role membership *)

Section Membership.
Variable test : string -> string -> bool.
Implicit Types (st : Memory.store).

Local Abbreviation R := (Memory.read test).

Lemma hasRole_In st userId rolename :
  Acl.hasRole (R := R) st userId rolename = true <->
  In rolename (Acl.userRoles (R := R) st userId).
Proof. apply includes_In. Qed.


Lemma mirror_untouched (t : list Memory.op) st :
  forallb (fun o => negb ((Memory.op_bucket o =? Acl.buckets.users)
                          || (Memory.op_bucket o =? Acl.buckets.roles))) t = true ->
  Spec.mirror st -> Spec.mirror (Memory.commit t st).
Proof.
  intros H Hm u r. rewrite forallb_forall in H.
  rewrite !commit_other_bucket; [apply Hm | |];
    intros o Ho E; specialize (H o Ho); rewrite E in H; discriminate.
Qed.


End Membership.

(** ** Deleting a role or a resource *)

Section Deletions.
Variable test : string -> string -> bool.
Implicit Types (st : Memory.store).

Local Abbreviation R := (Memory.read test).



End Deletions.

(** ** Revoking permissions *)

Section Revoke.
Variable test : string -> string -> bool.
Implicit Types (st : Memory.store).

Local Abbreviation R := (Memory.read test).

Lemma nil_iff_no_member (l : list string) : l = [] <-> forall x, ~ In x l.
Proof.
  split; [intros -> x []|]. destruct l as [|y l]; [reflexivity|].
  intros H. elim (H y). now left.
Qed.

Lemma removeAllow_falsy role (resources : values) (permissions : option values) st :
  truthy permissions = false ->
  Acl.removeAllow (R := R) role resources permissions st =
  Acl.removePermissions (R := R) role (makeArray resources) None st.
Proof.
  intros H. destruct permissions as [[s | l]|]; [| discriminate | reflexivity].
  cbn [truthy] in H. apply negb_false_iff, String.eqb_eq in H. subst s.
  reflexivity.
Qed.


(** X10. [removeAllow(role, resources, permissions)] with permissions
    takes away from the memory backend exactly the named permissions of the
    role on the given resources, and drops from the role's listing those of
    the given resources on which no permission of the role is left. *)
Theorem removeAllow_named_takes_away st role (resources ps : values) bucket key x :
  truthy (Some ps) = true ->
  let after := Acl.removeAllow (R := R) role resources (Some ps) st in
  Acl.outcome after = Ok tt /\
  (In x (Memory.mget (Acl.store_after after) bucket key) <->
   In x (Memory.mget st bucket key) /\
   ~ (key = role /\ In x (makeArray ps) /\
      exists resource, In resource (makeArray resources) /\
                       bucket = Acl.allowsBucket resource) /\
   ~ (bucket = Acl.buckets.resources /\ key = role /\ In x (makeArray resources) /\
      incl (Memory.mget st (Acl.allowsBucket x) role) (makeArray ps))).
Proof.
  intros Ht. cbv zeta. unfold Acl.removeAllow. rewrite Ht.
  rewrite removePermissions_memory. cbn [truthy makeArray Acl.outcome Acl.store_after].
  split; [reflexivity|].
  set (first := fun resource =>
                  [Memory.OpRemove (Acl.allowsBucket resource) role (makeArray ps)]).
  set (st1 := Memory.commit (flat_map first (makeArray resources)) st).
  assert (Hfirst : forallb Memory.is_removal (flat_map first (makeArray resources)) = true)
    by now apply forallb_flat_map.
  assert (Hst1 : forall b k y,
             In y (Memory.mget st1 b k) <->
             In y (Memory.mget st b k) /\
             ~ (k = role /\ In y (makeArray ps) /\
                exists resource, In resource (makeArray resources) /\
                                 b = Acl.allowsBucket resource)).
  { intros b k y. unfold st1. rewrite (commit_removals _ _ _ _ _ Hfirst). split.
    - intros [H Hn]. split; [exact H|]. intros (-> & Hy & resource & Hres & ->).
      apply Hn. exists (Memory.OpRemove (Acl.allowsBucket resource) role (makeArray ps)).
      split; [|simpl; auto]. apply in_flat_map. exists resource. simpl. auto.
    - intros [H Hn]. split; [exact H|]. intros (o & Ho & Hk).
      apply in_flat_map in Ho. destruct Ho as (resource & Hres & [<- | []]).
      simpl in Hk. destruct Hk as (<- & <- & Hy). apply Hn. eauto. }
  assert (Hempty : forall resource,
             In resource (makeArray resources) ->
             Memory.mget st1 (Acl.allowsBucket resource) role = [] <->
             incl (Memory.mget st (Acl.allowsBucket resource) role) (makeArray ps)).
  { intros resource Hres. rewrite nil_iff_no_member. split.
    - intros H y Hy.
      destruct (in_dec string_dec y (makeArray ps)) as [Hin | Hout]; [exact Hin|].
      elim (H y). apply Hst1. split; [exact Hy|]. tauto.
    - intros H y Hy. apply Hst1 in Hy. destruct Hy as [Hy Hn]. apply Hn.
      split; [reflexivity|]. split; [now apply H|]. eauto. }
  rewrite commit_removals
    by (apply forallb_flat_map; intros r; now destruct (Memory.mget _ _ _)).
  rewrite Hst1. split.
  - intros [[H Hn1] Hn2]. split; [exact H|]. split; [exact Hn1|].
    intros (-> & -> & Hx & Hincl). apply Hn2.
    exists (Memory.OpRemove Acl.buckets.resources role [x]).
    split; [|simpl; auto]. apply in_flat_map. exists x. split; [exact Hx|].
    apply (Hempty x Hx) in Hincl. rewrite Hincl. now left.
  - intros (H & Hn1 & Hn2). split; [split; [exact H | exact Hn1]|].
    intros (o & Ho & Hk). apply in_flat_map in Ho.
    destruct Ho as (resource & Hres & Ho).
    destruct (Memory.mget st1 (Acl.allowsBucket resource) role) eqn:E;
      [|contradiction].
    destruct Ho as [<- | []]. simpl in Hk. destruct Hk as (<- & <- & [<- | []]).
    apply Hn2. split; [reflexivity|]. split; [reflexivity|]. split; [exact Hres|].
    now apply Hempty.
Qed.

End Revoke.

(** ** The queries of the memory backend *)

Section Queries.
Variable test : string -> string -> bool.
Implicit Types (st : Memory.store).

Lemma NoDup_uniq_acc (seen arr : list string) :
  NoDup (Lodash.uniq_acc seen arr).
Proof.
  revert seen. induction arr as [|x arr IH]; intros seen; simpl; [constructor|].
  destruct (includes x seen) eqn:E; [apply IH|].
  constructor; [|apply IH].
  rewrite In_uniq_acc. intros [_ H]. apply H. now left.
Qed.

Lemma NoDup_uniq (arr : list string) : NoDup (Lodash.uniq arr).
Proof. apply NoDup_uniq_acc. Qed.

Lemma In_mget x st bucket key :
  In x (Memory.mget st bucket key) <->
  exists b v, prop bucket st = Some b /\ prop key b = Some v /\ In x v.
Proof.
  unfold Memory.mget. destruct (prop bucket st) as [b|].
  - destruct (prop key b) as [v|] eqn:Ev.
    + split; [eauto|]. intros (b' & v' & Hb & Hv & H).
      injection Hb as <-. rewrite Ev in Hv. injection Hv as <-. exact H.
    + split; [intros []|]. intros (b' & v' & Hb & Hv & _).
      injection Hb as <-. congruence.
  - split; [intros [] | intros (b' & v' & H & _); discriminate].
Qed.

Lemma In_munion_existing x st bucket ks :
  prop bucket st <> None ->
  In x (Memory.munion test st bucket ks) <->
  exists k, In k ks /\ In x (Memory.mget st bucket k).
Proof.
  intros Hb. rewrite In_munion. unfold Memory.resolve.
  destruct (prop bucket st) as [b|] eqn:Eb; [|congruence]. rewrite Eb. split.
  - intros (b' & k & v & [= <-] & Hk & Hp & Hx). exists k. split; [exact Hk|].
    apply In_mget. eauto.
  - intros (k & Hk & Hx). apply In_mget in Hx.
    destruct Hx as (b' & v & Hb' & Hp & Hx). rewrite Eb in Hb'.
    injection Hb' as <-. eauto 8.
Qed.



End Queries.

(** ** Stored arrays as sets *)

Section DuplicateFree.
Variable test : string -> string -> bool.
Implicit Types (st : Memory.store).

Local Abbreviation R := (Memory.read test).

Lemma run_duplicate_free (o : Memory.op) st :
  Spec.duplicate_free st -> Memory.adds_distinct o ->
  Spec.duplicate_free (Memory.run o st).
Proof.
  intros Hst Ho bucket key. specialize (Hst bucket key) as Hold.
  destruct o as [b k vals | b ks | b k vals]; cbn [Memory.run].
  - rewrite mget_lookup, lookup_run_add.
    destruct ((b =? bucket) && (k =? key)).
    + destruct (Memory.lookup st b k); [apply NoDup_uniq | exact Ho].
    + now rewrite <- mget_lookup.
  - rewrite mget_run_del. destruct ((b =? bucket) && includes key ks);
      [constructor | exact Hold].
  - rewrite mget_run_remove. destruct ((b =? bucket) && (k =? key)); [|exact Hold].
    apply NoDup_filter, Hst.
Qed.

Lemma commit_duplicate_free (t : list Memory.op) st :
  Spec.duplicate_free st -> Forall Memory.adds_distinct t ->
  Spec.duplicate_free (Memory.commit t st).
Proof.
  revert st. induction t as [|o t IH]; intros st Hst Ht; [exact Hst|].
  inversion Ht; subst.
  change (Memory.commit (o :: t) st) with (Memory.commit t (Memory.run o st)).
  apply IH; [now apply run_duplicate_free | assumption].
Qed.

Lemma removals_distinct (t : list Memory.op) :
  forallb Memory.is_removal t = true -> Forall Memory.adds_distinct t.
Proof.
  intros H. apply Forall_forall. intros o Ho.
  rewrite forallb_forall in H. specialize (H o Ho).
  destruct o; [discriminate | exact I | exact I].
Qed.

(** X13. The memory backend keeps its arrays free of duplicates as long
    as the arrays handed to the additions are: from a store without
    duplicates, [addUserRoles], [addRoleParents] and [allow] called with
    duplicate-free arrays, and every removal, leave a store without
    duplicates. *)
Theorem duplicate_free_kept st :
  Spec.duplicate_free st ->
  (forall userId roles,
      NoDup (makeArray roles) ->
      Spec.duplicate_free (Acl.store_after (Acl.addUserRoles userId roles st))) /\
  (forall role parents,
      NoDup (makeArray parents) ->
      Spec.duplicate_free (Acl.store_after (Acl.addRoleParents role parents st))) /\
  (forall roles resources permissions,
      NoDup (makeArray roles) -> NoDup (makeArray resources) ->
      NoDup (makeArray permissions) ->
      Spec.duplicate_free
        (Acl.store_after (Acl.allow roles resources permissions st))) /\
  (forall userId roles,
      Spec.duplicate_free (Acl.store_after (Acl.removeUserRoles userId roles st))) /\
  (forall role parents,
      Spec.duplicate_free (Acl.store_after (Acl.removeRoleParents role parents st))) /\
  (forall role,
      Spec.duplicate_free (Acl.store_after (Acl.removeRole (R := R) role st))) /\
  (forall resource,
      Spec.duplicate_free
        (Acl.store_after (Acl.removeResource (R := R) resource st))) /\
  (forall role resources permissions,
      Spec.duplicate_free
        (Acl.store_after (Acl.removeAllow (R := R) role resources permissions st))).
Proof.
  intros Hst.
  assert (Hone : forall u : string, NoDup [u])
    by (intros u; constructor; [intros [] | constructor]).
  repeat apply conj.
  - intros userId roles Hr. rewrite addUserRoles_memory. cbn [Acl.store_after].
    apply commit_duplicate_free.
    + apply (run_duplicate_free (Memory.OpAdd _ _ _));
        [apply (run_duplicate_free (Memory.OpAdd _ _ _))|]; simpl; auto.
    + apply Forall_forall. intros o Ho. apply in_map_iff in Ho.
      destruct Ho as (role & <- & _). simpl. auto.
  - intros role parents Hp. rewrite addRoleParents_memory. cbn [Acl.store_after].
    apply (run_duplicate_free (Memory.OpAdd _ _ _));
      [apply (run_duplicate_free (Memory.OpAdd _ _ _))|]; simpl; auto.
  - intros roles resources permissions Hr Hs Hp. rewrite allow_memory.
    cbn [Acl.store_after]. apply commit_duplicate_free; [exact Hst|].
    apply Forall_forall. intros o Ho. rewrite !in_app_iff in Ho.
    destruct Ho as [[<- | []] | [Ho | Ho]]; [exact Hr | |].
    + apply in_flat_map in Ho. destruct Ho as (resource & _ & Ho).
      apply in_flat_map in Ho. destruct Ho as (role & _ & [<- | []]). exact Hp.
    + apply in_flat_map in Ho. destruct Ho as (role & _ & [<- | []]). exact Hs.
  - intros userId roles. rewrite removeUserRoles_memory. cbn [Acl.store_after].
    apply commit_duplicate_free.
    + apply (run_duplicate_free (Memory.OpRemove _ _ _)); simpl; auto.
    + apply removals_distinct. now apply forallb_map_const.
  - intros role parents. unfold Acl.removeRoleParents.
    destruct parents as [ps|]; [destruct (truthy (Some ps))|];
      cbn [Acl.finish Acl.store_after remove del begin Memory.write
           Memory.mremove Memory.mdel end_ app];
      apply commit_duplicate_free; auto; now apply removals_distinct.
  - intros role. rewrite removeRole_memory. cbn [Acl.store_after].
    apply commit_duplicate_free; [exact Hst|]. apply removals_distinct.
    rewrite forallb_app, forallb_flat_map; reflexivity.
  - intros resource. rewrite removeResource_memory. cbn [Acl.store_after].
    apply commit_duplicate_free; [exact Hst|]. apply removals_distinct.
    cbn [forallb Memory.is_removal andb]. now apply forallb_flat_map.
  - intros role resources permissions. unfold Acl.removeAllow.
    rewrite removePermissions_memory. cbn [Acl.store_after].
    apply commit_duplicate_free; [apply commit_duplicate_free; [exact Hst|] |];
      apply removals_distinct, forallb_flat_map; intros resource.
    + destruct permissions as [[s | l]|]; cbn [truthy]; try reflexivity.
      destruct (s =? "") eqn:E; cbn [negb truthy]; rewrite ?E; reflexivity.
    + now destruct (Memory.mget _ _ _).
Qed.

End DuplicateFree.

(** ** Permissions through the hierarchy *)

Section Inherited.
Variable test : string -> string -> bool.
Variable st : Memory.store.

Local Abbreviation R := (Memory.read test).

Lemma resourcePermissions_backend fuel roles resource :
  @Acl._resourcePermissions _ R fuel st roles resource =
  @Acl._resourcePermissions _ (Memory.read_basic test) fuel st roles resource.
Proof.
  revert roles. induction fuel as [|f IH]; intros roles;
    rewrite !resourcePermissions_unfold; [reflexivity|].
  destruct roles as [|r rs]; [reflexivity|].
  change (@Acl._rolesParents _ (Memory.read_basic test) st (r :: rs))
    with (@Acl._rolesParents _ R st (r :: rs)).
  destruct (@Acl._rolesParents _ R st (r :: rs)); [reflexivity|].
  now rewrite IH.
Qed.


Lemma stored_ancestor_ancestor r a :
  Hierarchy.stored_ancestor st r a -> Hierarchy.ancestor test st r a.
Proof.
  induction 1 as [r | r p a Hp _ IH]; [constructor|].
  econstructor; [|exact IH]. now apply stored_parent_parent.
Qed.

Lemma isAllowed_check fuel userId resource (permissions : values) :
  @Acl.isAllowed _ R fuel st userId resource permissions =
  @Acl.areAnyRolesAllowed _ R fuel st (Arr (Acl.userRoles (R := R) st userId))
                          resource permissions.
Proof.
  unfold Acl.isAllowed, Acl.userRoles, Acl.areAnyRolesAllowed. cbn [get Memory.read makeArray].
  destruct (Memory.mget st Acl.buckets.users userId); reflexivity.
Qed.

(** X15. Permissions are inherited: when every requested permission is
    stored on the resource for a role the user holds, or for a role reached
    from one of the user's roles along stored parent edges, [isAllowed]
    answers [true] with any fuel from some bound on. *)
Theorem isAllowed_inherits userId resource (permissions : values) :
  Acl.userRoles (R := R) st userId <> [] ->
  (forall p, In p (makeArray permissions) ->
     exists d a, In d (Acl.userRoles (R := R) st userId) /\
                 Hierarchy.stored_ancestor st d a /\
                 In p (Memory.mget st (Acl.allowsBucket resource) a)) ->
  exists fuel0, forall fuel, fuel0 <= fuel ->
    @Acl.isAllowed _ R fuel st userId resource permissions = Some true.
Proof.
  intros Hne Hall.
  assert (Hc : Spec.closure_allows test st resource
                 (Acl.userRoles (R := R) st userId) (makeArray permissions)).
  { split; [exact Hne|]. right. intros p Hp.
    destruct (Hall p Hp) as (d & a & Hd & Hanc & Hin).
    exists d, a. split; [exact Hd|]. split; [now apply stored_ancestor_ancestor|].
    eapply mget_In_munion; [exact Hin | now left]. }
  apply allowed_iff_closure in Hc. destruct Hc as [_ Hs].
  apply succeeds_check_true in Hs. destruct Hs as [n Hn].
  exists n. intros fuel Hle. rewrite isAllowed_check.
  unfold Acl.areAnyRolesAllowed. cbn [makeArray].
  destruct (Acl.userRoles (R := R) st userId) as [|r rs]; [congruence|].
  eapply check_fuel_mono; eauto.
Qed.


End Inherited.

(** ** Users without roles, bucket names, encodings *)

Section NoRoles.
Variable test : string -> string -> bool.
Variable st : Memory.store.


End NoRoles.

Section Names.

(** X18. Resource names and the names of their allows buckets correspond
    one to one: [keyFromAllowsBucket] undoes [allowsBucket], two resources
    never share a bucket, and no allows bucket is one of the engine's fixed
    buckets. *)
Theorem allowsBucket_round_trip (resource : string) :
  Acl.keyFromAllowsBucket (Acl.allowsBucket resource) = resource /\
  (forall other, Acl.allowsBucket other = Acl.allowsBucket resource ->
                 other = resource) /\
  ~ In (Acl.allowsBucket resource)
       [Acl.buckets.meta; Acl.buckets.parents; Acl.buckets.permissions;
        Acl.buckets.resources; Acl.buckets.roles; Acl.buckets.users].
Proof.
  split; [apply keyFromAllowsBucket_allowsBucket|].
  split; [intros other; apply allowsBucket_inj|].
  simpl. intros H. repeat destruct H as [H | H]; try discriminate H. exact H.
Qed.

End Names.

Section Encoding.
Variables encodeURIComponent decodeURIComponent : string -> string.

Lemma In_chars_app c (a b : string) :
  In c (list_ascii_of_string (a ++ b)) <->
  In c (list_ascii_of_string a) \/ In c (list_ascii_of_string b).
Proof.
  induction a as [|x a IH]; simpl; [tauto|]. rewrite IH. tauto.
Qed.

Lemma replace_chars_clean (hit : ascii -> bool) (by_ text : string) :
  (forall c, In c (list_ascii_of_string by_) -> hit c = false) ->
  forall c, In c (list_ascii_of_string (MongoDB.replace_chars hit by_ text)) ->
            hit c = false.
Proof.
  intros Hby. induction text as [|d text IH]; intros c Hc; simpl in Hc; [contradiction|].
  destruct (hit d) eqn:E.
  - apply In_chars_app in Hc. destruct Hc as [Hc | Hc]; [now apply Hby | now apply IH].
  - simpl in Hc. destruct Hc as [<- | Hc]; [exact E | now apply IH].
Qed.

Lemma replace_chars_untouched (hit : ascii -> bool) (by_ text : string) :
  (forall c, In c (list_ascii_of_string text) -> hit c = false) ->
  MongoDB.replace_chars hit by_ text = text.
Proof.
  induction text as [|d text IH]; intros H; simpl; [reflexivity|].
  rewrite (H d) by now left. rewrite IH; [reflexivity|].
  intros c Hc. apply H. now right.
Qed.

(** X19. The MongoDB backend never uses a dot in a document key or field
    name it derives from an identifier: [encodeText] leaves no [.] in its
    result, whatever [encodeURIComponent] returns, and changes nothing else.
    Likewise [removeUnsupportedChar] (unless raw collection names are asked
    for) leaves no slash, space, tab or line break in a collection name. *)
Theorem mongodb_names_clean (text : string) :
  ~ In "."%char (list_ascii_of_string (MongoDB.encodeText encodeURIComponent text)) /\
  (~ In "."%char (list_ascii_of_string (encodeURIComponent text)) ->
   MongoDB.encodeText encodeURIComponent text = encodeURIComponent text) /\
  (forall c, In c ["/"; " "; "009"; "010"; "011"; "012"; "013"]%char ->
     ~ In c (list_ascii_of_string
               (MongoDB.removeUnsupportedChar decodeURIComponent false text))).
Proof.
  split; [|split].
  - intros H. apply replace_chars_clean in H; [discriminate H|].
    intros c Hc. simpl in Hc.
    repeat destruct Hc as [<- | Hc]; try reflexivity. contradiction.
  - intros H. apply replace_chars_untouched. intros c Hc.
    apply Ascii.eqb_neq. intros ->. contradiction.
  - intros c Hc H. unfold MongoDB.removeUnsupportedChar in H. cbn [negb] in H.
    apply replace_chars_clean in H.
    + simpl in Hc. repeat destruct Hc as [<- | Hc]; try discriminate H. contradiction.
    + intros c' Hc'. simpl in Hc'. destruct Hc' as [<- | []]. reflexivity.
Qed.

End Encoding.

(** ** [whatResources] *)

Section WhatResources.
Variable test : string -> string -> bool.
Variable st : Memory.store.

Local Abbreviation R := (Memory.read test).
Local Abbreviation level := (Hierarchy.level test st).

Lemma fold_left_concat (f : string -> list string) (l acc : list string) :
  fold_left (fun result role => result ++ f role) l acc = acc ++ flat_map f l.
Proof.
  revert acc. induction l as [|x l IH]; intros acc; simpl.
  - now rewrite app_nil_r.
  - now rewrite IH, app_assoc.
Qed.

Lemma In_intersection x (a b : list string) :
  In x (Lodash.intersection a b) <-> In x a /\ In x b.
Proof.
  unfold Lodash.intersection. now rewrite In_uniq, filter_In, includes_In.
Qed.

Lemma fold_push (g : string -> option (list string)) (f : string -> list string)
      (permissions l acc : list string) :
  (forall x, In x l -> g x = Some (f x)) ->
  fold_left
    (fun result resource =>
       match result, g resource with
       | Some result, Some p =>
           match Lodash.intersection permissions p with
           | [] => Some result
           | _ :: _ => Some (result ++ [resource])
           end
       | _, _ => None
       end) l (Some acc) =
  Some (acc ++ filter (fun resource =>
                         match Lodash.intersection permissions (f resource) with
                         | [] => false
                         | _ :: _ => true
                         end) l).
Proof.
  revert acc. induction l as [|x l IH]; intros acc H; simpl.
  - now rewrite app_nil_r.
  - rewrite (H x) by now left.
    destruct (Lodash.intersection permissions (f x));
      rewrite IH by (intros y Hy; apply H; now right);
      [reflexivity | now rewrite <- app_assoc].
Qed.

Lemma rolesResources_listed fuel (roles : list string) resources :
  @Acl._rolesResources _ R fuel st (Arr roles) = Some resources ->
  forall res, In res resources <-> Spec.listed test st roles res.
Proof.
  unfold Acl._rolesResources. cbn [makeArray].
  destruct (@Acl._allRoles _ R fuel st roles) as [closure|] eqn:E; [|discriminate].
  intros [= <-] res. rewrite fold_left_concat. cbn [app].
  rewrite in_flat_map. unfold Spec.listed. split.
  - intros (a & Ha & Hres). apply (@allRoles_levels test st fuel roles closure E) in Ha.
    destruct Ha as [n Hn].
    destruct (@level_ancestor test st n roles a Hn) as (r & Hr & Hanc). eauto 6.
  - intros (r & a & Hr & Hanc & Hres). exists a. split; [|exact Hres].
    apply (@allRoles_levels test st fuel roles closure E).
    eapply ancestor_level; eauto.
Qed.

Lemma resourcePermissions_holds fuel (roles : list string) :
  (exists n, n <= fuel /\ level (Datatypes.S n) roles = []) ->
  exists f, forall resource,
    @Acl._resourcePermissions _ R fuel st roles resource = Some (f resource) /\
    forall x, In x (f resource) <-> Spec.holds test st resource roles x.
Proof.
  intros Hdepth.
  exists (fun resource =>
            match @Acl._resourcePermissions _ R fuel st roles resource with
            | Some ps => ps
            | None => []
            end).
  intros resource.
  destruct (@resourcePermissions_levels test st fuel roles resource Hdepth)
    as (ps & Hps & Hin).
  rewrite resourcePermissions_backend, Hps. split; [reflexivity|].
  intros x. rewrite Hin. symmetry. apply holds_levels.
Qed.


End WhatResources.

(** ** The closure of a user's roles *)

Section UserClosure.
Variable test : string -> string -> bool.
Variable st : Memory.store.

Local Abbreviation R := (Memory.read test).


End UserClosure.

(** ** Termination of the permission check *)

Section Termination.
Variable test : string -> string -> bool.
Variable st : Memory.store.

Local Abbreviation R := (Memory.read test).
Local Abbreviation check := (@Acl._checkPermissions _ R).
Local Abbreviation level := (Hierarchy.level test st).

Lemma check_returns n roles resource requested :
  level (Datatypes.S n) roles = [] ->
  exists b, check n st roles resource requested = Some b.
Proof.
  revert roles requested. induction n as [|n IH]; intros roles requested Hl;
    rewrite check_unfold.
  - destruct (includes "*" _); [eauto|].
    destruct (Spec.unsatisfied _ _ _ _ _); [eauto|].
    rewrite parents_level, Hl. eauto.
  - destruct (includes "*" _); [eauto|].
    destruct (Spec.unsatisfied _ _ _ _ _) as [|u us]; [eauto|].
    destruct (Spec.parents test st roles) as [|q qs] eqn:E; [eauto|].
    apply IH. rewrite <- E, parents_level. exact Hl.
Qed.


Lemma check_loops p fuel : forall roles resource requested,
  (forall n, level (Datatypes.S n) roles <> []) ->
  (forall n, ~ In "*" (Spec.granted test st resource (level n roles))) ->
  (forall n, ~ In p (Spec.granted test st resource (level n roles))) ->
  In p requested ->
  check fuel st roles resource requested = None.
Proof.
  induction fuel as [|fuel IH]; intros roles resource requested Hne Hstar Hp Hin;
    rewrite check_unfold.
  - destruct (includes "*" _) eqn:E; [apply includes_In in E; now apply (Hstar 0) in E|].
    destruct (Spec.unsatisfied _ _ _ _ _) as [|u us] eqn:Eu.
    { assert (Hu : In p (Spec.unsatisfied test st resource roles requested)).
      { apply In_unsatisfied. split; [exact Hin | exact (Hp 0)]. }
      rewrite Eu in Hu. destruct Hu. }
    destruct (Spec.parents test st roles) as [|q qs] eqn:Eq; [|reflexivity].
    rewrite parents_level in Eq. now apply Hne in Eq.
  - destruct (includes "*" _) eqn:E; [apply includes_In in E; now apply (Hstar 0) in E|].
    destruct (Spec.unsatisfied _ _ _ _ _) as [|u us] eqn:Eu.
    { assert (Hu : In p (Spec.unsatisfied test st resource roles requested)).
      { apply In_unsatisfied. split; [exact Hin | exact (Hp 0)]. }
      rewrite Eu in Hu. destruct Hu. }
    destruct (Spec.parents test st roles) as [|q qs] eqn:Eq.
    { rewrite parents_level in Eq. now apply Hne in Eq. }
    rewrite <- Eq, <- Eu, parents_level. apply IH.
    + intros n. exact (Hne (Datatypes.S n)).
    + intros n. exact (Hstar (Datatypes.S n)).
    + intros n. exact (Hp (Datatypes.S n)).
    + apply In_unsatisfied. split; [exact Hin | exact (Hp 0)].
Qed.

(** X26. The check does not guard against cycles.  When the chain of
    parent sets above the roles never becomes empty (the roles reach a
    cycle), and some requested permission and the wildcard are granted to
    nobody in the closure, the recursion of [_checkPermissions] never ends:
    [areAnyRolesAllowed] returns with no amount of fuel. *)
Theorem permission_check_loops (roles : list string) resource
        (permissions : values) p :
  (forall n, Hierarchy.level test st n roles <> []) ->
  ~ Spec.holds test st resource roles "*" ->
  In p (makeArray permissions) ->
  ~ Spec.holds test st resource roles p ->
  forall fuel,
    @Acl.areAnyRolesAllowed _ R fuel st (Arr roles) resource permissions = None.
Proof.
  intros Hne Hstar Hin Hp fuel. unfold Acl.areAnyRolesAllowed. cbn [makeArray].
  destruct roles as [|r rs] eqn:E; [now destruct (Hne 0)|]. rewrite <- E in *.
  apply check_loops with (p := p).
  - intros n. apply Hne.
  - intros n H. apply Hstar, holds_levels. eauto.
  - intros n H. apply Hp, holds_levels. eauto.
  - exact Hin.
Qed.

End Termination.

(** ** A grant takes effect *)

Section GrantEffect.
Variable test : string -> string -> bool.
Implicit Types (st : Memory.store).

Local Abbreviation R := (Memory.read test).

(** X24. What [allow] grants is allowed at once: after
    [allow(roles, resources, permissions)] on the memory backend, a user who
    holds one of the roles is allowed the permissions of the call on each of
    its resources, whatever else the store holds and with any fuel (the
    answer needs no parent lookup). *)
Theorem grant_takes_effect st (roles resources permissions : values)
        userId role resource fuel :
  In role (makeArray roles) ->
  In resource (makeArray resources) ->
  Acl.hasRole (R := R) st userId role = true ->
  @Acl.isAllowed _ R fuel
     (Acl.store_after (Acl.allow roles resources permissions st))
     userId resource permissions = Some true.
Proof.
  intros Hrole Hres Hhas. apply hasRole_In in Hhas.
  rewrite allow_memory. cbn [Acl.store_after].
  match goal with |- context [Memory.commit ?t st] => set (ops := t) end.
  assert (Hops : forallb Memory.is_add ops = true) by apply allow_ops_add.
  assert (Huser : In role (Memory.mget (Memory.commit ops st) Acl.buckets.users userId)).
  { apply commit_adds; auto. }
  assert (Hgrant : forall p, In p (makeArray permissions) ->
            In p (Memory.mget (Memory.commit ops st) (Acl.allowsBucket resource) role)).
  { intros p Hp. apply commit_adds; [exact Hops|]. left.
    exists (Memory.OpAdd (Acl.allowsBucket resource) role (makeArray permissions)).
    split; [|simpl; auto]. unfold ops.
    rewrite !in_app_iff. right. left.
    apply in_flat_map. exists resource. split; [exact Hres|].
    apply in_flat_map. exists role. split; [exact Hrole | now left]. }
  rewrite isAllowed_check. unfold Acl.areAnyRolesAllowed, Acl.userRoles.
  cbn [get Memory.read makeArray].
  destruct (Memory.mget (Memory.commit ops st) Acl.buckets.users userId)
    as [|u us] eqn:E; [destruct Huser|]. rewrite <- E in *.
  destruct fuel; rewrite check_unfold.
  all: destruct (includes "*" _); [reflexivity|].
  all: destruct (Spec.unsatisfied _ _ _ _ _) as [|q qs] eqn:Eq; [reflexivity|].
  all: exfalso.
  all: assert (Hq : In q (Spec.unsatisfied test (Memory.commit ops st) resource
                      (Memory.mget (Memory.commit ops st) Acl.buckets.users userId)
                      (makeArray permissions))) by (rewrite Eq; now left).
  all: apply In_unsatisfied in Hq; destruct Hq as [Hq Hn]; apply Hn.
  all: eapply mget_In_munion; [apply Hgrant; exact Hq | exact Huser].
Qed.

End GrantEffect.

(** ** The keys of the Redis backend *)

Section RedisKeys.
Variable prefix : option string.

Lemma append_assoc (a b c : string) : ((a ++ b) ++ c = a ++ (b ++ c))%string.
Proof. induction a as [|x a IH]; simpl; [reflexivity | now rewrite IH]. Qed.

Lemma append_cancel (a b c : string) : (a ++ b = a ++ c)%string -> b = c.
Proof.
  induction a as [|x a IH]; simpl; [auto|]. intros H. injection H as H. auto.
Qed.

Lemma at_split (b b' k k' : string) :
  ~ In "@"%char (list_ascii_of_string b) ->
  ~ In "@"%char (list_ascii_of_string b') ->
  (b ++ "@" ++ k = b' ++ "@" ++ k')%string -> b = b' /\ k = k'.
Proof.
  revert b'. induction b as [|x b IH]; intros [|y b'] Hb Hb' H; simpl in *.
  - injection H as H. auto.
  - injection H as Hc H. destruct Hb'. now left.
  - injection H as Hc H. destruct Hb. now left.
  - injection H as Hc H. subst y.
    destruct (IH b') as [-> ->]; auto.
Qed.

(** X23. The key under which the Redis backend stores (bucket, key) is the
    concatenation [prefix_bucket@key], so it does not always tell the two
    apart: (b@k1, k2) and (b, k1@k2) share a key, and [add] queues the same
    commands for both; a grant to role [r] on resource [x@y] is written to
    the set of role [y@r] on resource [x].  Among buckets whose names hold
    no [@] the key determines bucket and key. *)
Theorem redis_bucketKey_collisions (b k1 k2 : string) :
  Redis.bucketKey prefix (b ++ "@" ++ k1) k2
  = Redis.bucketKey prefix b (k1 ++ "@" ++ k2) /\
  (forall t vals x y r,
      Redis.add prefix t (Acl.allowsBucket (x ++ "@" ++ y)) r vals
      = Redis.add prefix t (Acl.allowsBucket x) (y ++ "@" ++ r) vals) /\
  (forall bucket bucket' key key',
      ~ In "@"%char (list_ascii_of_string bucket) ->
      ~ In "@"%char (list_ascii_of_string bucket') ->
      Redis.bucketKey prefix bucket key = Redis.bucketKey prefix bucket' key' ->
      bucket = bucket' /\ key = key').
Proof.
  assert (Hkey : forall b k1 k2,
             Redis.bucketKey prefix (b ++ "@" ++ k1) k2
             = Redis.bucketKey prefix b (k1 ++ "@" ++ k2)).
  { intros b0 k0 k3. unfold Redis.bucketKey. now rewrite !append_assoc. }
  split; [apply Hkey|]. split.
  - intros t vals x y r. unfold Redis.add.
    change (Acl.allowsBucket (x ++ "@" ++ y)) with (Acl.allowsBucket x ++ "@" ++ y)%string.
    now rewrite Hkey.
  - intros bucket bucket' key key' Hb Hb' H. unfold Redis.bucketKey in H.
    apply append_cancel in H. apply (append_cancel "_") in H.
    now apply at_split.
Qed.

End RedisKeys.

(* ------------------------------------------------------------------ *)
(** * The further properties at concrete inputs *)

Module MoreConcrete.

Local Abbreviation R := (Memory.read RegExp.test).

Example office_whatResources :
  @Acl.whatResources _ R 1 Examples.office (Str "member") None
  = Some (Acl.ByResource [("blogs", ["*"])]).
Proof. vm_compute. reflexivity. Qed.

(** [member] inherits the wildcard on [blogs], so [view] is allowed there;
    yet [whatResources("member", "view")] is empty. *)
Example office_whatResources_view :
  @Acl.whatResources _ R 1 Examples.office (Str "member") (Some (Str "view"))
  = Some (Acl.Resources []) /\
  @Acl.areAnyRolesAllowed _ R 1 Examples.office (Str "member") "blogs" (Str "view")
  = Some true.
Proof. split; vm_compute; reflexivity. Qed.

Example guest_whatResources_view :
  @Acl.whatResources _ R 0 Examples.office (Str "guest") (Some (Arr ["view"; "edit"]))
  = Some (Acl.Resources ["blogs"]).
Proof. vm_compute. reflexivity. Qed.



(** Revoking [view] of [guest] on [blogs] in the example store. *)
Lemma removeAllow_named_takes_away_witness :
  truthy (Some (Str "view")) = true /\
  ~ In "blogs"
      (Memory.mget
         (Acl.store_after
            (Acl.removeAllow (R := R) "guest" (Str "blogs") (Some (Str "view"))
                             Examples.office))
         Acl.buckets.resources "guest").
Proof.
  assert (H : truthy (Some (Str "view")) = true) by reflexivity.
  split; [exact H|]. intros Hin.
  apply (proj2 (@removeAllow_named_takes_away RegExp.test Examples.office "guest"
                  (Str "blogs") (Str "view") Acl.buckets.resources "guest" "blogs" H))
    in Hin.
  destruct Hin as (_ & _ & Hn). apply Hn.
  split; [reflexivity|]. split; [reflexivity|]. split; [now left|].
  intros x Hx. simpl in Hx. exact Hx.
Defined.

(** A first grant on the empty store. *)
Lemma duplicate_free_kept_witness :
  Spec.duplicate_free Memory.clean /\
  Spec.duplicate_free
    (Acl.store_after
       (Acl.allow (Str "guest") (Str "blogs") (Arr ["view"; "edit"]) Memory.clean)).
Proof.
  assert (H : Spec.duplicate_free Memory.clean) by (intros b k; constructor).
  split; [exact H|].
  apply (proj1 (proj2 (proj2 (@duplicate_free_kept RegExp.test Memory.clean H)))).
  - simpl. constructor; [intros [] | constructor].
  - simpl. constructor; [intros [] | constructor].
  - simpl. constructor; [|constructor; [intros [] | constructor]].
    intros [E | []]. discriminate E.
Defined.


(** [joed] asks for the wildcard itself, which [admin] holds. *)
Lemma isAllowed_inherits_witness :
  Acl.userRoles (R := R) Examples.office "joed" <> [] /\
  exists fuel0, forall fuel, fuel0 <= fuel ->
    @Acl.isAllowed _ R fuel Examples.office "joed" "blogs" (Str "*") = Some true.
Proof.
  assert (H : Acl.userRoles (R := R) Examples.office "joed" <> [])
    by (simpl; discriminate).
  split; [exact H|].
  apply (@isAllowed_inherits RegExp.test Examples.office "joed" "blogs" (Str "*") H).
  intros p [<- | []]. exists "member", "admin". split; [simpl; auto|]. split.
  - apply Hierarchy.stored_ancestor_step with (p := "admin").
    + unfold Hierarchy.stored_parent. simpl. auto.
    + apply Hierarchy.stored_ancestor_self.
  - simpl. auto.
Defined.







Example loop_built :
  Acl.store_after (Acl.addRoleParents "staff" (Str "staff") Memory.clean)
  = Examples.loop.
Proof. reflexivity. Qed.

Lemma loop_level n :
  Hierarchy.level RegExp.test Examples.loop n ["staff"] = ["staff"].
Proof.
  induction n as [|n IH]; [reflexivity|].
  rewrite level_succ, IH. vm_compute. reflexivity.
Qed.

Lemma loop_holds_nothing resource p :
  ~ Spec.holds RegExp.test Examples.loop resource ["staff"] p.
Proof.
  intros H. apply holds_levels in H. destruct H as [n Hn].
  rewrite loop_level in Hn. unfold Spec.granted in Hn.
  apply In_munion in Hn. destruct Hn as (b & k & v & Hb & _).
  assert (E : Memory.resolve RegExp.test Examples.loop (Acl.allowsBucket resource)
              = Acl.allowsBucket resource).
  { unfold Memory.resolve. pose proof (allowsBucket_not_fixed resource) as (Hm & Hp & _).
    unfold Examples.loop. cbn [prop].
    destruct (String.eqb_spec "meta" (Acl.allowsBucket resource)) as [E | _];
      [symmetry in E; contradiction|].
    destruct (String.eqb_spec "parents" (Acl.allowsBucket resource)) as [E | _];
      [symmetry in E; contradiction|].
    reflexivity. }
  rewrite E in Hb. unfold Examples.loop in Hb. cbn [prop] in Hb.
  pose proof (allowsBucket_not_fixed resource) as (Hm & Hp & _).
  destruct (String.eqb_spec "meta" (Acl.allowsBucket resource)) as [E' | _];
    [symmetry in E'; contradiction|].
  destruct (String.eqb_spec "parents" (Acl.allowsBucket resource)) as [E' | _];
    [symmetry in E'; contradiction|].
  discriminate.
Qed.

(** A role that is its own parent, asked for a permission nobody holds. *)
Lemma permission_check_loops_witness :
  (forall n, Hierarchy.level RegExp.test Examples.loop n ["staff"] <> []) /\
  ~ Spec.holds RegExp.test Examples.loop "blogs" ["staff"] "*" /\
  In "view" (makeArray (Str "view")) /\
  ~ Spec.holds RegExp.test Examples.loop "blogs" ["staff"] "view" /\
  forall fuel,
    @Acl.areAnyRolesAllowed _ R fuel Examples.loop (Arr ["staff"]) "blogs" (Str "view")
    = None.
Proof.
  assert (H1 : forall n, Hierarchy.level RegExp.test Examples.loop n ["staff"] <> [])
    by (intros n; rewrite loop_level; discriminate).
  assert (H2 : ~ Spec.holds RegExp.test Examples.loop "blogs" ["staff"] "*")
    by apply loop_holds_nothing.
  assert (H3 : In "view" (makeArray (Str "view"))) by (simpl; auto).
  assert (H4 : ~ Spec.holds RegExp.test Examples.loop "blogs" ["staff"] "view")
    by apply loop_holds_nothing.
  split; [exact H1|]. split; [exact H2|]. split; [exact H3|]. split; [exact H4|].
  exact (@permission_check_loops RegExp.test Examples.loop ["staff"] "blogs"
           (Str "view") "view" H1 H2 H3 H4).
Defined.

(** [member] is granted two permissions on a new resource; [joed] holds
    [member]. *)
Lemma grant_takes_effect_witness :
  In "member" (makeArray (Str "member")) /\
  In "forums" (makeArray (Str "forums")) /\
  Acl.hasRole (R := R) Examples.office "joed" "member" = true /\
  @Acl.isAllowed _ R 0
     (Acl.store_after
        (Acl.allow (Str "member") (Str "forums") (Arr ["read"; "post"]) Examples.office))
     "joed" "forums" (Arr ["read"; "post"]) = Some true.
Proof.
  assert (H1 : In "member" (makeArray (Str "member"))) by (simpl; auto).
  assert (H2 : In "forums" (makeArray (Str "forums"))) by (simpl; auto).
  assert (H3 : Acl.hasRole (R := R) Examples.office "joed" "member" = true)
    by reflexivity.
  split; [exact H1|]. split; [exact H2|]. split; [exact H3|].
  exact (@grant_takes_effect RegExp.test Examples.office (Str "member") (Str "forums")
           (Arr ["read"; "post"]) "joed" "member" "forums" 0 H1 H2 H3).
Defined.

End MoreConcrete.
